(** * Chat message history stored in Astra DB

    A shallow embedding of
    [libs/community/langchain_community/chat_message_histories/astradb.py]
    and the properties of its session-scoped message log: ordering of reads,
    codec round trip, session isolation, scoped clear, error behaviour and
    the agreement of the blocking and the non-blocking call surfaces. *)

From Stdlib Require Import List ZArith NArith String Ascii Bool Lia.
From Stdlib Require Import Sorted Permutation.
Import ListNotations.

#[local] Set Warnings "-register-all".

Local Open Scope string_scope.

(** ** Errors and results

    Python exceptions are values of [Error]; a call either returns or
    raises. *)

Inductive Error : Type :=
| NotImplementedError (msg : string)
| JSONDecodeError (msg : string)
| KeyError (key : string)
| ValueError (msg : string)
| TypeError (msg : string).

Inductive Result (A : Type) : Type :=
| Ok (a : A)
| Raise (e : Error).

Arguments Ok {A} a.
Arguments Raise {A} e.

Definition is_ok {A} (r : Result A) : bool :=
  match r with Ok _ => true | Raise _ => false end.

(** The errors a read surfaces when a stored blob cannot be turned back into
    a message: malformed JSON, a mapping without the expected keys, or an
    unknown message type. *)
Definition is_decode_error (e : Error) : bool :=
  match e with
  | JSONDecodeError _ | KeyError _ | ValueError _ | TypeError _ => true
  | NotImplementedError _ => false
  end.

(** A list comprehension whose element expression may raise: elements are
    evaluated left to right and the first exception aborts the whole list. *)
Fixpoint traverse {A B} (f : A -> Result B) (l : list A) : Result (list B) :=
  match l with
  | [] => Ok []
  | x :: l' =>
      match f x with
      | Raise e => Raise e
      | Ok y =>
          match traverse f l' with
          | Raise e => Raise e
          | Ok ys => Ok (y :: ys)
          end
      end
  end.

(** ** JSON text

    Modelled from the spec: [json.dumps] and [json.loads] belong to the
    Python standard library, the spec only asks for a textual, lossless
    blob.  The model covers the JSON values a message mapping is made of
    (null, booleans, strings, objects); characters are code points below
    256.  [dumps] follows the default settings of [json.dumps]
    ([ensure_ascii], separators [", "] and [": "]); [loads] is a strict
    recursive-descent reader that skips insignificant white space. *)

Module Json.

Inductive t : Type :=
| Null
| Bool (b : bool)
| Str (s : string)
| Obj (fields : list (string * t)).

(** *** Writing *)

Definition dquote : ascii := ascii_of_N 34.
Definition backslash : ascii := ascii_of_N 92.

Definition hex_digit (n : N) : ascii :=
  if (n <? 10)%N then ascii_of_N (48 + n) else ascii_of_N (87 + n).

(** [ESCAPE_ASCII]: the quote, the backslash and everything outside
    [' '..'~'] are escaped; the short escapes are those of [ESCAPE_DCT]. *)
Definition escape_char (c : ascii) (k : string) : string :=
  let n := N_of_ascii c in
  if (n =? 34)%N then String backslash (String dquote k)
  else if (n =? 92)%N then String backslash (String backslash k)
  else if (n =? 8)%N then String backslash (String "b" k)
  else if (n =? 12)%N then String backslash (String "f" k)
  else if (n =? 10)%N then String backslash (String "n" k)
  else if (n =? 13)%N then String backslash (String "r" k)
  else if (n =? 9)%N then String backslash (String "t" k)
  else if ((n <? 32) || (126 <? n))%N then
    String backslash (String "u" (String "0" (String "0"
      (String (hex_digit (n / 16)) (String (hex_digit (n mod 16)) k)))))
  else String c k.

Fixpoint escape (s : string) (k : string) : string :=
  match s with
  | EmptyString => k
  | String c s' => escape_char c (escape s' k)
  end.

(** A string literal followed by [k]. *)
Definition quote (s : string) (k : string) : string :=
  String dquote (escape s (String dquote k)).

(** [dumps_k j k] is the text of [j] followed by [k]. *)
Fixpoint dumps_k (j : t) (k : string) : string :=
  match j with
  | Null => "null" ++ k
  | Bool true => "true" ++ k
  | Bool false => "false" ++ k
  | Str s => quote s k
  | Obj fields =>
      String "{"
        ((fix members (fs : list (string * t)) (k : string) : string :=
            match fs with
            | [] => k
            | (key, v) :: fs' =>
                quote key (": " ++ dumps_k v
                  match fs' with
                  | [] => k
                  | _ :: _ => ", " ++ members fs' k
                  end)
            end) fields (String "}" k))
  end.

Fixpoint dumps_members (fs : list (string * t)) (k : string) : string :=
  match fs with
  | [] => k
  | (key, v) :: fs' =>
      quote key (": " ++ dumps_k v
        match fs' with
        | [] => k
        | _ :: _ => ", " ++ dumps_members fs' k
        end)
  end.

Definition dumps (j : t) : string := dumps_k j EmptyString.

(** *** Reading *)

Definition is_ws (c : ascii) : bool :=
  let n := N_of_ascii c in
  ((n =? 32) || (n =? 9) || (n =? 10) || (n =? 13))%N.

Fixpoint skip_ws (s : string) : string :=
  match s with
  | EmptyString => EmptyString
  | String c s' => if is_ws c then skip_ws s' else s
  end.

Definition hex_value (c : ascii) : option N :=
  let n := N_of_ascii c in
  if ((48 <=? n) && (n <=? 57))%N then Some (n - 48)%N
  else if ((97 <=? n) && (n <=? 102))%N then Some (n - 87)%N
  else if ((65 <=? n) && (n <=? 70))%N then Some (n - 55)%N
  else None.

(** The character of a [\uXXXX] escape, when it is below 256. *)
Definition hex4 (h1 h2 h3 h4 : ascii) : option ascii :=
  match hex_value h1, hex_value h2, hex_value h3, hex_value h4 with
  | Some a, Some b, Some c, Some d =>
      let n := (((a * 16 + b) * 16 + c) * 16 + d)%N in
      if (n <? 256)%N then Some (ascii_of_N n) else None
  | _, _, _, _ => None
  end.

Definition unescape (e : ascii) : option ascii :=
  let n := N_of_ascii e in
  if (n =? 34)%N then Some dquote
  else if (n =? 92)%N then Some backslash
  else if (n =? 47)%N then Some "/"%char
  else if (n =? 98)%N then Some (ascii_of_N 8)
  else if (n =? 102)%N then Some (ascii_of_N 12)
  else if (n =? 110)%N then Some (ascii_of_N 10)
  else if (n =? 114)%N then Some (ascii_of_N 13)
  else if (n =? 116)%N then Some (ascii_of_N 9)
  else None.

Definition push (c : ascii) (r : option (string * string))
  : option (string * string) :=
  match r with
  | Some (s, rest) => Some (String c s, rest)
  | None => None
  end.

(** Reads a string literal whose opening quote has been consumed; returns
    its content and the text after the closing quote. *)
Fixpoint parse_string (s : string) : option (string * string) :=
  match s with
  | EmptyString => None
  | String c r =>
      if (N_of_ascii c =? 34)%N then Some (EmptyString, r)
      else if (N_of_ascii c =? 92)%N then
        match r with
        | EmptyString => None
        | String e r1 =>
            if (N_of_ascii e =? 117)%N then
              match r1 with
              | String h1 (String h2 (String h3 (String h4 r2))) =>
                  match hex4 h1 h2 h3 h4 with
                  | Some ch => push ch (parse_string r2)
                  | None => None
                  end
              | _ => None
              end
            else
              match unescape e with
              | Some ch => push ch (parse_string r1)
              | None => None
              end
        end
      else if (N_of_ascii c <? 32)%N then None
      else push c (parse_string r)
  end.

(** [expect lit s] strips the literal [lit] from the front of [s]. *)
Fixpoint expect (lit s : string) : option string :=
  match lit with
  | EmptyString => Some s
  | String a lit' =>
      match s with
      | String b s' => if Ascii.eqb a b then expect lit' s' else None
      | EmptyString => None
      end
  end.

Fixpoint parse_value (fuel : nat) (s : string) : option (t * string) :=
  match fuel with
  | O => None
  | S n =>
      match skip_ws s with
      | EmptyString => None
      | String c r =>
          if (N_of_ascii c =? 34)%N then
            match parse_string r with
            | Some (str, r') => Some (Str str, r')
            | None => None
            end
          else if (N_of_ascii c =? 123)%N then
            match skip_ws r with
            | EmptyString => None
            | String c' r' =>
                if (N_of_ascii c' =? 125)%N then Some (Obj [], r')
                else
                  match parse_members n r with
                  | Some (fs, r'') => Some (Obj fs, r'')
                  | None => None
                  end
            end
          else if (N_of_ascii c =? 110)%N then
            match expect "ull" r with
            | Some r' => Some (Null, r')
            | None => None
            end
          else if (N_of_ascii c =? 116)%N then
            match expect "rue" r with
            | Some r' => Some (Bool true, r')
            | None => None
            end
          else if (N_of_ascii c =? 102)%N then
            match expect "alse" r with
            | Some r' => Some (Bool false, r')
            | None => None
            end
          else None
      end
  end

(** Reads [key: value] pairs separated by commas, up to and including the
    closing brace. *)
with parse_members (fuel : nat) (s : string)
  : option (list (string * t) * string) :=
  match fuel with
  | O => None
  | S n =>
      match skip_ws s with
      | EmptyString => None
      | String c r =>
          if (N_of_ascii c =? 34)%N then
            match parse_string r with
            | None => None
            | Some (key, r1) =>
                match skip_ws r1 with
                | EmptyString => None
                | String c1 r2 =>
                    if (N_of_ascii c1 =? 58)%N then
                      match parse_value n r2 with
                      | None => None
                      | Some (v, r3) =>
                          match skip_ws r3 with
                          | EmptyString => None
                          | String c3 r4 =>
                              if (N_of_ascii c3 =? 44)%N then
                                match parse_members n r4 with
                                | Some (fs, r5) => Some ((key, v) :: fs, r5)
                                | None => None
                                end
                              else if (N_of_ascii c3 =? 125)%N then
                                Some ([(key, v)], r4)
                              else None
                          end
                      end
                    else None
                end
            end
          else None
      end
  end.

Definition loads (s : string) : Result t :=
  match parse_value (S (String.length s)) s with
  | None => Raise (JSONDecodeError "Expecting value")
  | Some (j, rest) =>
      match skip_ws rest with
      | EmptyString => Ok j
      | String _ _ => Raise (JSONDecodeError "Extra data")
      end
  end.

(** The recursion depth budget that reading the text of [j] needs. *)
Fixpoint size (j : t) : nat :=
  match j with
  | Obj fields =>
      S ((fix size_members (fs : list (string * t)) : nat :=
            match fs with
            | [] => 0
            | (_, v) :: fs' => S (size v + size_members fs')
            end) fields)
  | _ => 1
  end.

Fixpoint size_members (fs : list (string * t)) : nat :=
  match fs with
  | [] => 0
  | (_, v) :: fs' => S (size v + size_members fs')
  end.

(** A Python [dict] built by [json.loads] keeps the last binding of a
    repeated key. *)
Fixpoint get (key : string) (fields : list (string * t)) : option t :=
  match fields with
  | [] => None
  | (k, v) :: fields' =>
      match get key fields' with
      | Some v' => Some v'
      | None => if String.eqb k key then Some v else None
      end
  end.

End Json.

(** ** Messages

    Modelled from the spec: the message model and its conversion to and
    from a JSON-serializable mapping ([langchain_core.messages]) are not
    part of the sources.  A message is a type discriminator and a textual
    content; the mapping carries the discriminator under [type] and the
    payload under [data], so that decoding needs no external context, and
    decoding fails on an ill-formed mapping or an unknown message type. *)

Module Messages.

Inductive MessageType : Type := human | ai | system.

Record BaseMessage : Type := { type : MessageType; content : string }.

Definition type_name (t : MessageType) : string :=
  match t with
  | human => "human"
  | ai => "ai"
  | system => "system"
  end.

Definition type_of_name (j : Json.t) : option MessageType :=
  match j with
  | Json.Str s =>
      if String.eqb s "human" then Some human
      else if String.eqb s "ai" then Some ai
      else if String.eqb s "system" then Some system
      else None
  | _ => None
  end.

Definition message_to_dict (message : BaseMessage) : Json.t :=
  Json.Obj [("type", Json.Str (type_name (type message)));
            ("data", Json.Obj [("content", Json.Str (content message))])].

Definition _message_from_dict (message : Json.t) : Result BaseMessage :=
  match message with
  | Json.Obj fields =>
      match Json.get "type" fields with
      | None => Raise (KeyError "type")
      | Some _type =>
          match type_of_name _type with
          | None => Raise (ValueError "Got unexpected message type")
          | Some t =>
              match Json.get "data" fields with
              | None => Raise (KeyError "data")
              | Some (Json.Obj data) =>
                  match Json.get "content" data with
                  | Some (Json.Str c) => Ok {| type := t; content := c |}
                  | _ => Raise (ValueError "content: str type expected")
                  end
              | Some _ => Raise (TypeError "data is not a mapping")
              end
          end
      end
  | _ => Raise (TypeError "message is not a mapping")
  end.

Definition messages_from_dict (messages : list Json.t)
  : Result (list BaseMessage) :=
  traverse _message_from_dict messages.

End Messages.

Import Messages.

(** The codec of the store, as the source composes it: a message is written
    as [json.dumps(message_to_dict(message))] and a blob is read back by
    [json.loads] followed by [messages_from_dict]. *)
Definition encode (message : BaseMessage) : string :=
  Json.dumps (message_to_dict message).

Definition decode (blob : string) : Result BaseMessage :=
  match Json.loads blob with
  | Raise e => Raise e
  | Ok item =>
      match messages_from_dict [item] with
      | Ok [m] => Ok m
      | Ok _ => Raise (ValueError "one message expected")
      | Raise e => Raise e
      end
  end.

(** ** [sorted]

    Python's [sorted(iterable, key=...)]: ascending by key, stable; the
    result of a stable sort does not depend on the algorithm
    ([stable_sort_unique]).  Keys are timestamps.  [time.time()] returns a
    finite float of which the code
    only observes the order, so a timestamp is represented by an integer,
    order-preserving. *)

Section Sorted.

Context {A : Type} (key : A -> Z).

Fixpoint insert_by (x : A) (l : list A) : list A :=
  match l with
  | [] => [x]
  | y :: l' =>
      if (key x <=? key y)%Z then x :: y :: l' else y :: insert_by x l'
  end.

Definition sorted (l : list A) : list A := fold_right insert_by [] l.

Definition key_le (x y : A) : Prop := (key x <= key y)%Z.
Definition key_lt (x y : A) : Prop := (key x < key y)%Z.

(** [l'] keeps, among elements of equal key, the order they have in [l]. *)
Definition stable_wrt (l l' : list A) : Prop :=
  forall k : Z,
    filter (fun x => (key x =? k)%Z) l' = filter (fun x => (key x =? k)%Z) l.

End Sorted.

(** ** Documents and the backing collection *)

(** The persisted document,
    [{"timestamp": ..., "session_id": ..., "body_blob": ...}]. *)
Module Doc.
Record t : Type :=
  mk { timestamp : Z; session_id : string; body_blob : string }.
End Doc.

(** A document as a read returns it, under the projection
    [{"timestamp": 1, "body_blob": 1}]. *)
Module Projected.
Record t : Type := mk { timestamp : Z; body_blob : string }.
End Projected.

Definition project (d : Doc.t) : Projected.t :=
  {| Projected.timestamp := Doc.timestamp d;
     Projected.body_blob := Doc.body_blob d |}.

(** The process and the remote database: the wall clock as the sequence of
    values successive [time.time()] calls return, the number of calls made
    so far, and the documents of the collection (a collection that does not
    exist yet holds none). *)
Record World : Type := {
  wall_clock : nat -> Z;
  clock_reads : nat;
  collection : list Doc.t
}.

(** Modelled from the spec: [_AstraDBCollectionEnvironment]
    ([langchain_community.utilities.astradb]) is not part of the sources.
    Per store instance it holds the "already set up" flag and the
    pre-delete option given at construction. *)
Record _AstraDBCollectionEnvironment : Type := {
  setup_done : bool;
  pre_delete_collection : bool
}.

Record AstraDBChatMessageHistory : Type := {
  astra_env : _AstraDBCollectionEnvironment;
  session_id : string;
  collection_name : string
}.

Definition DEFAULT_COLLECTION_NAME : string := "langchain_message_store".

(** The constructor.  Credentials, endpoint and namespace select the remote
    database and play no part here; nothing is provisioned yet. *)
Definition __init__ (session_id : string) (collection_name : string)
  (pre_delete_collection : bool) : AstraDBChatMessageHistory :=
  {| astra_env := {| setup_done := false;
                     pre_delete_collection := pre_delete_collection |};
     session_id := session_id;
     collection_name := collection_name |}.

Record State : Type := {
  self : AstraDBChatMessageHistory;
  world : World
}.

Definition set_collection (c : list Doc.t) (st : State) : State :=
  {| self := self st;
     world := {| wall_clock := wall_clock (world st);
                 clock_reads := clock_reads (world st);
                 collection := c |} |}.

Definition set_setup_done (st : State) : State :=
  {| self := {| astra_env :=
                  {| setup_done := true;
                     pre_delete_collection :=
                       pre_delete_collection (astra_env (self st)) |};
                session_id := session_id (self st);
                collection_name := collection_name (self st) |};
     world := world st |}.

Definition tick (st : State) : State :=
  {| self := self st;
     world := {| wall_clock := wall_clock (world st);
                 clock_reads := S (clock_reads (world st));
                 collection := collection (world st) |} |}.

(** *** Stateful, fallible computations

    A method runs on the instance and the world; an exception keeps the
    effects made before it was raised. *)

Definition M (A : Type) : Type := State -> Result A * State.

Definition ret {A} (a : A) : M A := fun st => (Ok a, st).

Definition raise {A} (e : Error) : M A := fun st => (Raise e, st).

Definition bind {A B} (m : M A) (k : A -> M B) : M B :=
  fun st =>
    match m st with
    | (Ok a, st') => k a st'
    | (Raise e, st') => (Raise e, st')
    end.

Definition lift {A} (r : Result A) : M A := fun st => (r, st).

Definition gets {A} (f : State -> A) : M A := fun st => (Ok (f st), st).

Declare Scope monad_scope.
Delimit Scope monad_scope with monad.
Notation "x <- c1 ;; c2" := (bind c1 (fun x => c2))
  (at level 61, c1 at next level, right associativity) : monad_scope.
Notation "c1 ;;; c2" := (bind c1 (fun _ => c2))
  (at level 61, right associativity) : monad_scope.
Local Open Scope monad_scope.

(** A list comprehension whose element expression has effects. *)
Fixpoint mapM {A B} (f : A -> M B) (l : list A) : M (list B) :=
  match l with
  | [] => ret []
  | x :: l' => y <- f x ;; ys <- mapM f l' ;; ret (y :: ys)
  end.

(** [await] of a coroutine, run to completion. *)
Definition await {A} (m : M A) : M A := m.

(** [time.time()]. *)
Definition time_time : M Z :=
  fun st =>
    (Ok (wall_clock (world st) (clock_reads (world st))), tick st).

(** *** The collection (astrapy)

    Modelled from the spec: the driver is an external collaborator known by
    its contract.  A find returns every matching document, projected, in an
    order of the backend's choosing ([scan_order]); an insert adds the
    batch; a delete removes every matching document.  The blocking handle
    [self.collection] and the non-blocking handle [self.async_collection]
    address the same remote collection.  A [Backend] fixes the order of
    one retrieval; two reads that need not agree on it are taken with two
    backends. *)

Class Backend : Type := {
  scan_order : list Projected.t -> list Projected.t;
  scan_order_perm : forall l, Permutation (scan_order l) l
}.

(** The filter [{"session_id": sid}]. *)
Definition matches (sid : string) (d : Doc.t) : bool :=
  String.eqb (Doc.session_id d) sid.

Module Collection.

Definition find_docs `{Backend} (sid : string) (docs : list Doc.t)
  : list Projected.t :=
  scan_order (map project (filter (matches sid) docs)).

Definition paginated_find `{Backend} (sid : string)
  : M (list Projected.t) :=
  fun st => (Ok (find_docs sid (collection (world st))), st).

Definition chunked_insert_many (documents : list Doc.t) : M unit :=
  fun st =>
    (Ok tt, set_collection (collection (world st) ++ documents)%list st).

Definition delete_many (sid : string) : M unit :=
  fun st =>
    (Ok tt,
     set_collection
       (filter (fun d => negb (matches sid d)) (collection (world st))) st).

(** Creating the collection is idempotent: documents already there stay. *)
Definition create_collection (docs : list Doc.t) : list Doc.t := docs.

Definition delete_collection (docs : list Doc.t) : list Doc.t := [].

End Collection.

(** *** Provisioning

    Modelled from the spec: the first call on an instance performs the
    provisioning (preceded by a destructive delete when pre-deletion was
    configured) and sets the flag; every later call is a no-op.  The
    blocking and the awaitable form are equivalent and share the flag. *)

Definition setup_db (st : State) : State :=
  let c := collection (world st) in
  let c :=
    if pre_delete_collection (astra_env (self st))
    then Collection.delete_collection c else c in
  set_setup_done (set_collection (Collection.create_collection c) st).

Definition ensure_db_setup : M unit :=
  fun st =>
    if setup_done (astra_env (self st)) then (Ok tt, st)
    else (Ok tt, setup_db st).

Definition aensure_db_setup : M unit :=
  fun st =>
    if setup_done (astra_env (self st)) then (Ok tt, st)
    else (Ok tt, setup_db st).

(** ** The chat message history *)

Section Store.

Context `{Backend}.

(** The [messages] property. *)
Definition messages : M (list BaseMessage) :=
  ensure_db_setup ;;;
  sid <- gets (fun st => session_id (self st)) ;;
  found <- Collection.paginated_find sid ;;
  let message_blobs :=
    map Projected.body_blob (sorted Projected.timestamp found) in
  items <- lift (traverse Json.loads message_blobs) ;;
  lift (messages_from_dict items).

(** The setter of the [messages] property. *)
Definition messages_setter (messages : list BaseMessage) : M unit :=
  raise (NotImplementedError "Use add_messages instead").

Definition aget_messages : M (list BaseMessage) :=
  await aensure_db_setup ;;;
  sid <- gets (fun st => session_id (self st)) ;;
  docs <- Collection.paginated_find sid ;;
  let sorted_docs :=
    sorted Projected.timestamp (map (fun doc => doc) docs) in
  let message_blobs := map Projected.body_blob sorted_docs in
  items <- lift (traverse Json.loads message_blobs) ;;
  lift (messages_from_dict items).

(** One element of the comprehension that builds the documents: the
    clock is read, then the session and the encoded message are taken. *)
Definition make_doc (message : BaseMessage) : M Doc.t :=
  ts <- time_time ;;
  sid <- gets (fun st => session_id (self st)) ;;
  ret {| Doc.timestamp := ts;
         Doc.session_id := sid;
         Doc.body_blob := Json.dumps (message_to_dict message) |}.

Definition add_messages (messages : list BaseMessage) : M unit :=
  ensure_db_setup ;;;
  docs <- mapM make_doc messages ;;
  Collection.chunked_insert_many docs.

Definition aadd_messages (messages : list BaseMessage) : M unit :=
  await aensure_db_setup ;;;
  docs <- mapM make_doc messages ;;
  await (Collection.chunked_insert_many docs).

Definition clear : M unit :=
  ensure_db_setup ;;;
  sid <- gets (fun st => session_id (self st)) ;;
  Collection.delete_many sid.

Definition aclear : M unit :=
  await aensure_db_setup ;;;
  sid <- gets (fun st => session_id (self st)) ;;
  await (Collection.delete_many sid).

End Store.

(** Two backends: one returns the matching documents in insertion order,
    the other in reverse. *)
Definition insertion_order : Backend :=
  {| scan_order := fun l => l;
     scan_order_perm := fun l => Permutation_refl l |}.

Definition reverse_order : Backend :=
  {| scan_order := @rev Projected.t;
     scan_order_perm := fun l => Permutation_sym (Permutation_rev l) |}.

(** ** Vocabulary of the statements *)

(** The documents of the collection. *)
Definition stored (st : State) : list Doc.t := collection (world st).

(** The state a method works on once its provisioning step has run. *)
Definition provisioned (st : State) : State := snd (ensure_db_setup st).

(** The records of a session. *)
Definition records_of (sid : string) (st : State) : list Doc.t :=
  filter (matches sid) (stored st).

(** What the retrieval of a read returns, fully drained. *)
Definition found_by `{Backend} (st : State) : list Projected.t :=
  Collection.find_docs (session_id (self st)) (stored (provisioned st)).

(** The same world seen from another store instance. *)
Definition seen_from (r : AstraDBChatMessageHistory) (st : State) : State :=
  {| self := r; world := world st |}.

(** The documents [add_messages] builds for a batch: the [i]-th message is
    stamped with the [i]-th clock read of the call. *)
Fixpoint docs_from (clock : nat -> Z) (n : nat) (sid : string)
  (messages : list BaseMessage) : list Doc.t :=
  match messages with
  | [] => []
  | message :: messages' =>
      {| Doc.timestamp := clock n;
         Doc.session_id := sid;
         Doc.body_blob := encode message |}
      :: docs_from clock (S n) sid messages'
  end.

Definition synthesized (messages : list BaseMessage) (st : State)
  : list Doc.t :=
  docs_from (wall_clock (world st)) (clock_reads (world st))
    (session_id (self st)) messages.

(** The state after [n] clock reads. *)
Fixpoint advance (n : nat) (st : State) : State :=
  match n with
  | O => st
  | S n' => advance n' (tick st)
  end.

(** The wall clock never runs backwards / always moves forward. *)
Definition nondecreasing (clock : nat -> Z) : Prop :=
  forall n, (clock n <= clock (S n))%Z.

Definition increasing (clock : nat -> Z) : Prop :=
  forall n, (clock n < clock (S n))%Z.

(** The two passes of a read over the retrieved blobs. *)
Definition decode_blobs (message_blobs : list string)
  : Result (list BaseMessage) :=
  match traverse Json.loads message_blobs with
  | Ok items => messages_from_dict items
  | Raise e => Raise e
  end.

(** ** Sample data *)

Definition m_hello : BaseMessage := {| type := human; content := "hello" |}.
Definition m_hi : BaseMessage := {| type := ai; content := "hi there" |}.

Definition store_of (sid : string) : AstraDBChatMessageHistory :=
  __init__ sid DEFAULT_COLLECTION_NAME false.

(** A clock that advances at every read, and one that stands still. *)
Definition ticking_clock (n : nat) : Z := Z.of_nat n.
Definition frozen_clock (n : nat) : Z := 1700000000%Z.

Definition world_of (clock : nat -> Z) (docs : list Doc.t) : World :=
  {| wall_clock := clock; clock_reads := 0; collection := docs |}.

Definition state_of (sid : string) (clock : nat -> Z) (docs : list Doc.t)
  : State :=
  {| self := store_of sid; world := world_of clock docs |}.

(** A collection with two sessions: session [s] holds two records that
    were stored in the reverse of their timestamp order, session [t] holds
    one; and a collection with a blob that is no JSON text. *)
Definition sample_docs : list Doc.t :=
  [ {| Doc.timestamp := 20; Doc.session_id := "s";
       Doc.body_blob := encode m_hi |};
    {| Doc.timestamp := 10; Doc.session_id := "t";
       Doc.body_blob := encode m_hello |};
    {| Doc.timestamp := 10; Doc.session_id := "s";
       Doc.body_blob := encode m_hello |} ].

Definition broken_docs : list Doc.t :=
  [ {| Doc.timestamp := 10; Doc.session_id := "s";
       Doc.body_blob := encode m_hello |};
    {| Doc.timestamp := 20; Doc.session_id := "s";
       Doc.body_blob := "oops" |} ].

(** Test texts are written with single quotes standing for double quotes. *)
Fixpoint text (s : string) : string :=
  match s with
  | EmptyString => EmptyString
  | String c s' =>
      String (if (N_of_ascii c =? 39)%N then Json.dquote else c) (text s')
  end.

(** A clock that starts after every timestamp of [sample_docs]. *)
Definition late_clock (n : nat) : Z := (100 + Z.of_nat n)%Z.

(** A collection where the older blob is a mapping of unknown type and
    the newer one is no JSON text. *)
Definition unreadable_docs : list Doc.t :=
  [ {| Doc.timestamp := 10; Doc.session_id := "s";
       Doc.body_blob := text "{'type': 'robot'}" |};
    {| Doc.timestamp := 20; Doc.session_id := "s";
       Doc.body_blob := "oops" |} ].

(** * Properties *)

(** ** JSON round trip *)

Module JsonFacts.
Import Json.

Lemma json_ind' (P : t -> Prop) :
  P Null ->
  (forall b, P (Bool b)) ->
  (forall s, P (Str s)) ->
  (forall fs, Forall (fun kv => P (snd kv)) fs -> P (Obj fs)) ->
  forall j, P j.
Proof.
  intros HN HB HS HO.
  refine (fix IH (j : t) : P j :=
            match j with
            | Null => HN
            | Bool b => HB b
            | Str s => HS s
            | Obj fs =>
                HO fs
                  ((fix all (l : list (string * t))
                      : Forall (fun kv => P (snd kv)) l :=
                      match l with
                      | [] => Forall_nil _
                      | kv :: l' => Forall_cons kv (IH (snd kv)) (all l')
                      end) fs)
            end).
Qed.

Lemma dumps_k_Obj fs k :
  dumps_k (Obj fs) k = String "{" (dumps_members fs (String "}" k)).
Proof.
  reflexivity.
Qed.

Lemma size_Obj fs : size (Obj fs) = S (size_members fs).
Proof.
  reflexivity.
Qed.

Lemma size_pos j : 1 <= size j.
Proof. destruct j; cbn; lia. Qed.

(** Reading back one escaped character. *)
Lemma parse_string_escape_char c k :
  parse_string (escape_char c k) = push c (parse_string k).
Proof.
  destruct c as [[] [] [] [] [] [] [] []]; reflexivity.
Qed.

Lemma parse_string_escape s k :
  parse_string (escape s (String dquote k)) = Some (s, k).
Proof.
  induction s as [ | c s IH ]; [ reflexivity | ].
  cbn [escape]. rewrite parse_string_escape_char, IH. reflexivity.
Qed.

(** The text of a value starts with a character that is no white space
    and that selects the right branch of the reader. *)
Lemma parse_value_space n s :
  parse_value n (String " " s) = parse_value n s.
Proof. destruct n; reflexivity. Qed.

Lemma parse_members_space n s :
  parse_members n (String " " s) = parse_members n s.
Proof. destruct n; reflexivity. Qed.

Lemma parse_members_quote n key k :
  parse_members (S n) (quote key k) =
  match skip_ws k with
  | EmptyString => None
  | String c1 r2 =>
      if (N_of_ascii c1 =? 58)%N then
        match parse_value n r2 with
        | None => None
        | Some (v, r3) =>
            match skip_ws r3 with
            | EmptyString => None
            | String c3 r4 =>
                if (N_of_ascii c3 =? 44)%N then
                  match parse_members n r4 with
                  | Some (fs, r5) => Some ((key, v) :: fs, r5)
                  | None => None
                  end
                else if (N_of_ascii c3 =? 125)%N then Some ([(key, v)], r4)
                else None
            end
        end
      else None
  end.
Proof.
  unfold quote. cbn [parse_members skip_ws].
  change (is_ws dquote) with false. cbv iota.
  change (N_of_ascii dquote =? 34)%N with true. cbv iota.
  rewrite parse_string_escape. reflexivity.
Qed.

Section RoundTrip.

Let reads (j : t) : Prop :=
  forall n k, size j <= n -> parse_value n (dumps_k j k) = Some (j, k).

Lemma parse_members_dumps fs :
  Forall (fun kv => reads (snd kv)) fs ->
  fs <> [] ->
  forall n k,
    size_members fs <= n ->
    parse_members n (dumps_members fs (String "}" k)) = Some (fs, k).
Proof.
  induction 1 as [ | [key v] fs Hv Hfs IH ]; [ congruence | intros _ ].
  intros n k Hn. cbn [size_members] in Hn.
  destruct n as [ | n ]; [ lia | ].
  cbn [dumps_members]. rewrite parse_members_quote.
  cbn [append skip_ws]. change (is_ws ":") with false. cbv iota.
  change (N_of_ascii ":" =? 58)%N with true. cbv iota.
  rewrite parse_value_space.
  cbn [snd] in Hv. rewrite Hv by lia.
  destruct fs as [ | kv fs ].
  - reflexivity.
  - cbn [append skip_ws]. change (is_ws ",") with false. cbv iota.
    change (N_of_ascii "," =? 44)%N with true. cbv iota.
    rewrite parse_members_space.
    rewrite IH; [ reflexivity | congruence | lia ].
Qed.

Lemma parse_value_dumps j : reads j.
Proof.
  induction j as [ | b | s | fs IH ] using json_ind'; intros n k Hn;
    (destruct n as [ | n ];
     [ rewrite ?size_Obj in Hn; cbn [size] in Hn; lia | ]).
  - reflexivity.
  - destruct b; reflexivity.
  - cbn [dumps_k]. unfold quote. cbn [parse_value skip_ws].
    change (is_ws dquote) with false. cbv iota.
    change (N_of_ascii dquote =? 34)%N with true. cbv iota.
    rewrite parse_string_escape. reflexivity.
  - rewrite dumps_k_Obj. rewrite size_Obj in Hn.
    destruct fs as [ | [key v] fs ].
    + reflexivity.
    + cbn [parse_value skip_ws]. change (is_ws "{") with false. cbv iota.
      change (N_of_ascii "{" =? 34)%N with false. cbv iota.
      change (N_of_ascii "{" =? 123)%N with true. cbv iota.
      rewrite parse_members_dumps; [ | assumption | congruence | lia ].
      cbn [dumps_members]. unfold quote. cbn [skip_ws].
      change (is_ws dquote) with false. cbv iota.
      change (N_of_ascii dquote =? 125)%N with false. cbv iota.
      reflexivity.
Qed.

End RoundTrip.

End JsonFacts.

(** ** The codec *)

Section Codec.
Import Json JsonFacts.

Lemma length_escape_char c k :
  S (String.length k) <= String.length (escape_char c k).
Proof.
  destruct c as [[] [] [] [] [] [] [] []]; cbn; lia.
Qed.

Lemma length_escape s k : String.length k <= String.length (escape s k).
Proof.
  induction s as [ | c s IH ]; cbn [escape]; [ lia | ].
  pose proof (length_escape_char c (escape s k)). lia.
Qed.

Lemma length_quote s k : 2 + String.length k <= String.length (quote s k).
Proof.
  unfold quote. cbn [String.length].
  pose proof (length_escape s (String dquote k)) as Hl.
  cbn [String.length] in Hl. lia.
Qed.

Lemma length_dumps_members fs :
  Forall (fun kv =>
            forall k, size (snd kv) + String.length k
                      <= String.length (dumps_k (snd kv) k)) fs ->
  forall k,
    size_members fs + String.length k
    <= String.length (dumps_members fs k).
Proof.
  induction 1 as [ | [key v] fs Hv Hfs IH ]; intros k; [ cbn; lia | ].
  cbn [dumps_members size_members snd] in *.
  match goal with
  | |- _ <= String.length (quote key ?x) =>
      pose proof (length_quote key x) as Hq
  end.
  cbn [append String.length] in Hq.
  match type of Hq with
  | context [dumps_k v ?r] => pose proof (Hv r) as Hr
  end.
  destruct fs as [ | kv fs ].
  - cbn [size_members append String.length] in *. lia.
  - specialize (IH k). cbn [append String.length] in *. lia.
Qed.

Lemma length_dumps_k j :
  forall k, size j + String.length k <= String.length (dumps_k j k).
Proof.
  induction j as [ | b | s | fs IH ] using json_ind'; intros k.
  - cbn. lia.
  - destruct b; cbn; lia.
  - cbn [dumps_k size]. pose proof (length_quote s k). lia.
  - rewrite dumps_k_Obj, size_Obj. cbn [String.length].
    pose proof (length_dumps_members fs IH (String "}" k)) as Hl.
    cbn [String.length] in Hl. lia.
Qed.

(** [json.loads(json.dumps(j))] gives [j] back. *)
Lemma loads_dumps j : loads (dumps j) = Ok j.
Proof.
  unfold loads, dumps.
  rewrite parse_value_dumps; [ reflexivity | ].
  pose proof (length_dumps_k j EmptyString). lia.
Qed.

Lemma message_from_dict_to_dict m :
  _message_from_dict (message_to_dict m) = Ok m.
Proof. destruct m as [[] c]; reflexivity. Qed.

Lemma decode_encode_ok m : decode (encode m) = Ok m.
Proof.
  unfold decode, encode. rewrite loads_dumps.
  unfold messages_from_dict. cbn [traverse].
  rewrite message_from_dict_to_dict. reflexivity.
Qed.

(** What [json.loads] raises is a decode error, and so is what
    [messages_from_dict] raises. *)
Lemma loads_error s e : loads s = Raise e -> is_decode_error e = true.
Proof.
  unfold loads.
  destruct (parse_value _ s) as [[j rest] | ]; [ | intros [= <-]; reflexivity ].
  destruct (skip_ws rest); intros [= <-]. reflexivity.
Qed.

Lemma message_from_dict_error j e :
  _message_from_dict j = Raise e -> is_decode_error e = true.
Proof.
  unfold _message_from_dict.
  repeat match goal with
         | |- context [match ?x with _ => _ end] => destruct x
         end; intros [= <-]; reflexivity.
Qed.

End Codec.

(** ** Lists built by a comprehension that may raise *)

Section Traverse.

Context {A B : Type} (f : A -> Result B).

Lemma traverse_app l1 l2 :
  traverse f (l1 ++ l2)%list =
  match traverse f l1 with
  | Raise e => Raise e
  | Ok ys1 =>
      match traverse f l2 with
      | Raise e => Raise e
      | Ok ys2 => Ok (ys1 ++ ys2)%list
      end
  end.
Proof.
  induction l1 as [ | x l1 IH ]; cbn [traverse app].
  - destruct (traverse f l2); reflexivity.
  - destruct (f x); [ | reflexivity ]. rewrite IH.
    destruct (traverse f l1); [ | reflexivity ].
    destruct (traverse f l2); reflexivity.
Qed.

Lemma traverse_raise l e :
  traverse f l = Raise e -> exists x, In x l /\ f x = Raise e.
Proof.
  induction l as [ | x l IH ]; cbn [traverse]; [ discriminate | ].
  destruct (f x) as [y | e'] eqn:Hx.
  - destruct (traverse f l) as [ys | e'']; [ discriminate | ].
    intros [= <-]. destruct IH as (x' & Hin & Hr); [ reflexivity | ].
    exists x'. split; [ right; assumption | assumption ].
  - intros [= <-]. exists x. split; [ left; reflexivity | assumption ].
Qed.

Lemma traverse_ok l ys :
  traverse f l = Ok ys -> Forall2 (fun x y => f x = Ok y) l ys.
Proof.
  revert ys. induction l as [ | x l IH ]; cbn [traverse]; intros ys.
  - intros [= <-]. constructor.
  - destruct (f x) as [y | e] eqn:Hx; [ | discriminate ].
    destruct (traverse f l) as [ys' | e]; [ | discriminate ].
    intros [= <-]. constructor; auto.
Qed.

Lemma traverse_ok_all l :
  (forall x, In x l -> is_ok (f x) = true) -> is_ok (traverse f l) = true.
Proof.
  induction l as [ | x l IH ]; cbn [traverse]; intros Hall; [ reflexivity | ].
  pose proof (Hall x (or_introl eq_refl)) as Hx.
  destruct (f x); [ | discriminate ].
  assert (Hl : is_ok (traverse f l) = true)
    by (apply IH; intros; apply Hall; right; assumption).
  destruct (traverse f l); [ reflexivity | discriminate ].
Qed.

Lemma traverse_fails l x :
  In x l -> is_ok (f x) = false -> is_ok (traverse f l) = false.
Proof.
  induction l as [ | y l IH ]; cbn [traverse In]; [ tauto | ].
  intros [-> | Hin] Hx.
  - destruct (f x); [ discriminate | reflexivity ].
  - destruct (f y); [ | reflexivity ].
    specialize (IH Hin Hx).
    destruct (traverse f l); [ discriminate | reflexivity ].
Qed.

End Traverse.

(** Reading the blobs in two passes, [json.loads] over all of them and then
    [messages_from_dict], succeeds exactly when decoding them one by one
    does, with the same messages. *)
Lemma two_pass_decode blobs ms :
  (match traverse Json.loads blobs with
   | Ok items => messages_from_dict items
   | Raise e => Raise e
   end) = Ok ms
  <-> traverse decode blobs = Ok ms.
Proof.
  unfold messages_from_dict. revert ms.
  induction blobs as [ | b blobs IH ]; intros ms; cbn [traverse]; [ tauto | ].
  unfold decode at 1. unfold messages_from_dict. cbn [traverse].
  destruct (Json.loads b) as [item | e]; [ | split; discriminate ].
  destruct (traverse Json.loads blobs) as [items | e].
  - cbn [traverse]. destruct (_message_from_dict item) as [m | e];
      [ | split; discriminate ].
    destruct (traverse _message_from_dict items) as [ms' | e].
    + destruct (traverse decode blobs) as [ms'' | e].
      * assert (ms' = ms'') by (specialize (IH ms'); destruct IH as [IH _];
                                specialize (IH eq_refl); congruence).
        subst. tauto.
      * specialize (IH ms'). destruct IH as [IH _]. specialize (IH eq_refl).
        discriminate.
    + destruct (traverse decode blobs) as [ms'' | e'].
      * specialize (IH ms''). destruct IH as [_ IH]. specialize (IH eq_refl).
        discriminate.
      * split; discriminate.
  - destruct (_message_from_dict item) as [m | e']; [ | split; discriminate ].
    destruct (traverse decode blobs) as [ms'' | e'].
    + specialize (IH ms''). destruct IH as [_ IH]. specialize (IH eq_refl).
      discriminate.
    + split; discriminate.
Qed.

(** ** [sorted] is a stable sort *)

Section SortedFacts.

Context {A : Type} (key : A -> Z).

Lemma insert_by_perm x l : Permutation (insert_by key x l) (x :: l).
Proof.
  induction l as [ | y l IH ]; cbn [insert_by]; [ reflexivity | ].
  destruct (key x <=? key y)%Z; [ reflexivity | ].
  rewrite IH. apply perm_swap.
Qed.

Lemma sorted_perm l : Permutation (sorted key l) l.
Proof.
  induction l as [ | x l IH ]; cbn [sorted fold_right]; [ reflexivity | ].
  fold (sorted key l). rewrite insert_by_perm. constructor. exact IH.
Qed.

Lemma insert_by_sorted x l :
  StronglySorted (key_le key) l ->
  StronglySorted (key_le key) (insert_by key x l).
Proof.
  induction 1 as [ | y l Hl IH Hy ]; cbn [insert_by].
  - repeat constructor.
  - destruct (Z.leb_spec (key x) (key y)) as [Hxy | Hxy].
    + constructor; [ constructor; assumption | ].
      constructor; [ exact Hxy | ].
      eapply Forall_impl; [ | exact Hy ].
      unfold key_le in *. intros; lia.
    + constructor; [ exact IH | ].
      eapply Permutation_Forall; [ symmetry; apply insert_by_perm | ].
      constructor; [ unfold key_le; lia | exact Hy ].
Qed.

Lemma sorted_sorted l : StronglySorted (key_le key) (sorted key l).
Proof.
  induction l as [ | x l IH ]; cbn [sorted fold_right]; [ constructor | ].
  apply insert_by_sorted. exact IH.
Qed.

Lemma filter_insert_by k x l :
  filter (fun y => (key y =? k)%Z) (insert_by key x l) =
  filter (fun y => (key y =? k)%Z) (x :: l).
Proof.
  induction l as [ | y l IH ]; cbn [insert_by]; [ reflexivity | ].
  destruct (Z.leb_spec (key x) (key y)) as [Hxy | Hxy]; [ reflexivity | ].
  cbn [filter] in *. rewrite IH.
  destruct (Z.eqb_spec (key x) k), (Z.eqb_spec (key y) k);
    try reflexivity; lia.
Qed.

Lemma sorted_stable l : stable_wrt key l (sorted key l).
Proof.
  intros k. induction l as [ | x l IH ]; cbn [sorted fold_right];
    [ reflexivity | ].
  fold (sorted key l). rewrite filter_insert_by. cbn [filter].
  rewrite IH. reflexivity.
Qed.

(** Two ascending lists with the same elements of every key, in the same
    order, are equal: a stable sort has one possible result. *)
Lemma ascending_stable_unique l1 l2 :
  StronglySorted (key_le key) l1 ->
  StronglySorted (key_le key) l2 ->
  (forall k, filter (fun x => (key x =? k)%Z) l1
             = filter (fun x => (key x =? k)%Z) l2) ->
  l1 = l2.
Proof.
  intros H1. revert l2.
  induction H1 as [ | a l1 Hl1 IH Ha ]; intros l2 H2 Hf.
  - destruct l2 as [ | b l2 ]; [ reflexivity | ].
    specialize (Hf (key b)). cbn [filter] in Hf.
    rewrite Z.eqb_refl in Hf. discriminate.
  - destruct H2 as [ | b l2 Hl2 Hb ].
    + specialize (Hf (key a)). cbn [filter] in Hf.
      rewrite Z.eqb_refl in Hf. discriminate.
    + assert (Hnone : forall x (l : list A) k,
                 Forall (key_le key x) l -> (k < key x)%Z ->
                 filter (fun y => (key y =? k)%Z) l = []).
      { intros x l k Hx Hk. induction Hx as [ | y l Hy Hl IHl ];
          cbn [filter]; [ reflexivity | ].
        unfold key_le in Hy.
        destruct (Z.eqb_spec (key y) k); [ lia | exact IHl ]. }
      assert (Hk : key a = key b).
      { destruct (Z.lt_total (key a) (key b)) as [Hlt | [Heq | Hgt]];
          [ | exact Heq | ].
        - specialize (Hf (key a)). cbn [filter] in Hf.
          rewrite Z.eqb_refl in Hf.
          destruct (Z.eqb_spec (key b) (key a)); [ lia | ].
          rewrite (Hnone b l2 (key a) Hb Hlt) in Hf. discriminate.
        - specialize (Hf (key b)). cbn [filter] in Hf.
          rewrite Z.eqb_refl in Hf.
          destruct (Z.eqb_spec (key a) (key b)); [ lia | ].
          rewrite (Hnone a l1 (key b) Ha) in Hf by lia. discriminate. }
      assert (Hab : a = b).
      { specialize (Hf (key a)). cbn [filter] in Hf.
        rewrite <- Hk, Z.eqb_refl in Hf. congruence. }
      subst b. f_equal. apply IH; [ exact Hl2 | ].
      intros k. specialize (Hf k). cbn [filter] in Hf.
      destruct (Z.eqb_spec (key a) k); congruence.
Qed.

Lemma stable_sort_unique l l' :
  StronglySorted (key_le key) l' -> stable_wrt key l l' -> l' = sorted key l.
Proof.
  intros Hs Hst. apply ascending_stable_unique.
  - exact Hs.
  - apply sorted_sorted.
  - intros k. rewrite Hst. symmetry. apply sorted_stable.
Qed.

(** A list whose keys increase strictly is the only ascending arrangement
    of its elements. *)
Lemma ascending_unique l1 l2 :
  StronglySorted (key_le key) l1 ->
  StronglySorted (key_lt key) l2 ->
  Permutation l1 l2 ->
  l1 = l2.
Proof.
  intros H1. revert l2.
  induction H1 as [ | a l1 Hl1 IH Ha ]; intros l2 H2 Hp.
  - apply Permutation_nil in Hp. congruence.
  - destruct H2 as [ | b l2 Hl2 Hb ].
    + apply Permutation_sym, Permutation_nil in Hp. discriminate.
    + assert (Hab : a = b).
      { assert (Hina : In a (b :: l2))
          by (eapply Permutation_in; [ exact Hp | left; reflexivity ]).
        assert (Hinb : In b (a :: l1))
          by (eapply Permutation_in;
              [ symmetry; exact Hp | left; reflexivity ]).
        destruct Hina as [ | Hina ]; [ congruence | ].
        destruct Hinb as [ | Hinb ]; [ congruence | ].
        rewrite Forall_forall in Ha, Hb.
        specialize (Ha _ Hinb). specialize (Hb _ Hina).
        unfold key_le, key_lt in *. lia. }
      subst b. f_equal. apply IH; [ exact Hl2 | ].
      eapply Permutation_cons_inv. exact Hp.
Qed.

Lemma sorted_ascending l0 l :
  StronglySorted (key_lt key) l0 -> Permutation l l0 -> sorted key l = l0.
Proof.
  intros H0 Hp. apply ascending_unique.
  - apply sorted_sorted.
  - exact H0.
  - rewrite sorted_perm. exact Hp.
Qed.

End SortedFacts.

(** ** Running the methods *)

Ltac destruct_state st :=
  let b := fresh "b" in
  let p := fresh "p" in
  let sid := fresh "sid" in
  let cn := fresh "cn" in
  let clk := fresh "clk" in
  let n := fresh "n" in
  let c := fresh "c" in
  destruct st as [[[b p] sid cn] [clk n c]].

Section Provisioning.

Lemma ensure_db_setup_run st : ensure_db_setup st = (Ok tt, provisioned st).
Proof.
  unfold provisioned, ensure_db_setup.
  destruct (setup_done (astra_env (self st))); reflexivity.
Qed.

Lemma aensure_db_setup_run st : aensure_db_setup st = (Ok tt, provisioned st).
Proof.
  unfold provisioned, ensure_db_setup, aensure_db_setup.
  destruct (setup_done (astra_env (self st))); reflexivity.
Qed.

Lemma provisioned_session st :
  session_id (self (provisioned st)) = session_id (self st).
Proof. destruct_state st. destruct b; reflexivity. Qed.

Lemma provisioned_clock st :
  wall_clock (world (provisioned st)) = wall_clock (world st) /\
  clock_reads (world (provisioned st)) = clock_reads (world st).
Proof. destruct_state st. destruct b; split; reflexivity. Qed.

Lemma provisioned_setup_done st :
  setup_done (astra_env (self (provisioned st))) = true.
Proof. destruct_state st. destruct b; reflexivity. Qed.


Lemma provisioned_when_done st :
  setup_done (astra_env (self st)) = true -> provisioned st = st.
Proof. destruct_state st. cbn. intros ->. reflexivity. Qed.

(** Provisioning keeps the documents, except for the destructive reset of
    an instance configured with pre-delete that has not been set up yet. *)
Lemma provisioned_stored st :
  setup_done (astra_env (self st)) = true \/
  pre_delete_collection (astra_env (self st)) = false ->
  stored (provisioned st) = stored st.
Proof.
  destruct_state st. cbn.
  intros [-> | ->]; [ reflexivity | ].
  destruct b; reflexivity.
Qed.

Lemma provisioned_stored_cases st :
  stored (provisioned st) = stored st \/ stored (provisioned st) = [].
Proof.
  destruct_state st. destruct b, p; cbn; auto.
Qed.

End Provisioning.

Section Running.

Lemma advance_self n st : self (advance n st) = self st.
Proof.
  revert st. induction n as [ | n IH ]; intros st; cbn; [ | rewrite IH ];
    reflexivity.
Qed.

Lemma advance_collection n st :
  collection (world (advance n st)) = collection (world st).
Proof.
  revert st. induction n as [ | n IH ]; intros st; cbn; [ | rewrite IH ];
    reflexivity.
Qed.

Lemma advance_wall_clock n st :
  wall_clock (world (advance n st)) = wall_clock (world st).
Proof.
  revert st. induction n as [ | n IH ]; intros st; cbn; [ | rewrite IH ];
    reflexivity.
Qed.

Lemma mapM_make_doc messages st :
  mapM make_doc messages st =
  (Ok (synthesized messages st), advance (List.length messages) st).
Proof.
  revert st. induction messages as [ | m messages IH ]; intros st.
  - reflexivity.
  - cbn [mapM]. unfold bind at 1. unfold make_doc at 1.
    unfold bind, time_time, gets, ret. cbn [fst snd].
    rewrite IH. reflexivity.
Qed.

Lemma add_messages_run messages st :
  add_messages messages st =
  (Ok tt,
   set_collection
     (stored (provisioned st) ++ synthesized messages (provisioned st))%list
     (advance (List.length messages) (provisioned st))).
Proof.
  unfold add_messages, bind. rewrite ensure_db_setup_run, mapM_make_doc.
  unfold Collection.chunked_insert_many, stored.
  rewrite advance_collection. reflexivity.
Qed.

Lemma clear_run st :
  clear st =
  (Ok tt,
   set_collection
     (filter (fun d => negb (matches (session_id (self st)) d))
        (stored (provisioned st)))
     (provisioned st)).
Proof.
  unfold clear, bind. rewrite ensure_db_setup_run.
  unfold gets, Collection.delete_many, stored.
  rewrite provisioned_session. reflexivity.
Qed.

Lemma messages_run `{Backend} st :
  messages st =
  (decode_blobs
     (map Projected.body_blob (sorted Projected.timestamp (found_by st))),
   provisioned st).
Proof.
  unfold messages, bind. rewrite ensure_db_setup_run.
  unfold gets, Collection.paginated_find, lift, found_by, decode_blobs, stored.
  rewrite provisioned_session.
  destruct (traverse Json.loads _); reflexivity.
Qed.

Lemma set_collection_same st : set_collection (stored st) st = st.
Proof. destruct_state st. reflexivity. Qed.

End Running.

(** ** The blocking and the non-blocking surface *)

Lemma aget_messages_messages `{Backend} st : aget_messages st = messages st.
Proof.
  unfold aget_messages, messages, await, bind.
  rewrite aensure_db_setup_run, ensure_db_setup_run.
  unfold gets, Collection.paginated_find. rewrite map_id. reflexivity.
Qed.

Lemma aclear_clear st : aclear st = clear st.
Proof.
  unfold aclear, clear, await, bind.
  rewrite aensure_db_setup_run, ensure_db_setup_run. reflexivity.
Qed.

Lemma aadd_messages_add ms st : aadd_messages ms st = add_messages ms st.
Proof.
  unfold aadd_messages, add_messages, await, bind.
  rewrite aensure_db_setup_run, ensure_db_setup_run. reflexivity.
Qed.

(** C4: the blocking and the non-blocking form of each public operation
    compute the same result and leave the same state: [aget_messages]
    returns what [messages] returns on the same collection contents,
    [aadd_messages] builds and inserts the documents [add_messages] does,
    and [aclear] issues the deletion [clear] does. *)
Theorem sync_async_agree `{Backend} :
  (forall st, aget_messages st = messages st) /\
  (forall ms st, aadd_messages ms st = add_messages ms st) /\
  (forall st, aclear st = clear st).
Proof.
  split; [ | split ].
  - apply aget_messages_messages.
  - apply aadd_messages_add.
  - apply aclear_clear.
Qed.

(** ** The setter *)

(** C7: assigning a full history through the [messages] setter raises
    [NotImplementedError] and leaves the instance and the collection as
    they were. *)
Theorem messages_setter_rejected (ms : list BaseMessage) (st : State) :
  messages_setter ms st =
  (Raise (NotImplementedError "Use add_messages instead"), st).
Proof. reflexivity. Qed.

(** ** Timestamps of a batch *)

Section Clock.

Variable clock : nat -> Z.

Lemma nondecreasing_le :
  nondecreasing clock -> forall n m, n <= m -> (clock n <= clock m)%Z.
Proof.
  intros Hc n m Hle. induction Hle as [ | m Hle IH ]; [ lia | ].
  specialize (Hc m). lia.
Qed.

Lemma increasing_lt :
  increasing clock -> forall n m, n < m -> (clock n < clock m)%Z.
Proof.
  intros Hc n m Hlt. induction Hlt as [ | m Hlt IH ].
  - apply Hc.
  - specialize (Hc m). lia.
Qed.

Lemma docs_from_read sid ms :
  forall n d, In d (docs_from clock n sid ms) ->
              exists m, n <= m /\ Doc.timestamp d = clock m.
Proof.
  induction ms as [ | msg ms IH ]; intros n d; cbn [docs_from In]; [ tauto | ].
  intros [<- | Hin].
  - exists n. split; [ lia | reflexivity ].
  - destruct (IH _ _ Hin) as (m & Hm & Ht). exists m. split; [ lia | exact Ht ].
Qed.

Lemma docs_from_nondecreasing sid ms :
  nondecreasing clock ->
  forall n, StronglySorted (key_le Doc.timestamp) (docs_from clock n sid ms).
Proof.
  intros Hc. induction ms as [ | msg ms IH ]; intros n; cbn [docs_from];
    constructor; [ apply IH | ].
  apply Forall_forall. intros d Hin.
  destruct (docs_from_read _ _ _ _ Hin) as (m & Hm & Ht).
  unfold key_le. cbn [Doc.timestamp]. rewrite Ht.
  apply nondecreasing_le; [ exact Hc | lia ].
Qed.

Lemma docs_from_increasing sid ms :
  increasing clock ->
  forall n, StronglySorted (key_lt Doc.timestamp) (docs_from clock n sid ms).
Proof.
  intros Hc. induction ms as [ | msg ms IH ]; intros n; cbn [docs_from];
    constructor; [ apply IH | ].
  apply Forall_forall. intros d Hin.
  destruct (docs_from_read _ _ _ _ Hin) as (m & Hm & Ht).
  unfold key_lt. cbn [Doc.timestamp]. rewrite Ht.
  apply increasing_lt; [ exact Hc | lia ].
Qed.

Lemma docs_from_session sid ms :
  forall n, Forall (fun d => Doc.session_id d = sid) (docs_from clock n sid ms).
Proof.
  induction ms as [ | msg ms IH ]; intros n; cbn [docs_from]; constructor;
    [ reflexivity | apply IH ].
Qed.

Lemma docs_from_blobs sid ms :
  forall n, map Doc.body_blob (docs_from clock n sid ms) = map encode ms.
Proof.
  induction ms as [ | msg ms IH ]; intros n; cbn [docs_from map];
    [ reflexivity | ].
  rewrite IH. reflexivity.
Qed.

Lemma docs_from_length sid ms :
  forall n, List.length (docs_from clock n sid ms) = List.length ms.
Proof.
  induction ms as [ | msg ms IH ]; intros n; cbn [docs_from List.length];
    [ reflexivity | ].
  rewrite IH. reflexivity.
Qed.

End Clock.

Lemma strongly_sorted_map_le {A} (key : A -> Z) l :
  StronglySorted (key_le key) l -> Sorted Z.le (map key l).
Proof.
  intros Hs. apply StronglySorted_Sorted.
  induction Hs as [ | x l Hl IH Hx ]; cbn [map]; constructor; [ exact IH | ].
  apply Forall_map. exact Hx.
Qed.

Lemma ticking_clock_increasing : increasing ticking_clock.
Proof. intros n. unfold ticking_clock. lia. Qed.

Lemma ticking_clock_nondecreasing : nondecreasing ticking_clock.
Proof. intros n. unfold ticking_clock. lia. Qed.

Lemma frozen_clock_nondecreasing : nondecreasing frozen_clock.
Proof. intros n. unfold frozen_clock. lia. Qed.

(** C9: within one [add_messages] call the timestamps of the documents
    built for the batch are non-decreasing in batch position when the wall
    clock never runs backwards; they need not be strictly increasing. *)
Theorem batch_timestamps_nondecreasing :
  (forall ms st,
      nondecreasing (wall_clock (world st)) ->
      exists docs,
        fst (mapM make_doc ms (provisioned st)) = Ok docs /\
        stored (snd (add_messages ms st))
        = (stored (provisioned st) ++ docs)%list /\
        List.length docs = List.length ms /\
        Sorted Z.le (map Doc.timestamp docs)) /\
  (exists ms st docs,
      nondecreasing (wall_clock (world st)) /\
      fst (mapM make_doc ms (provisioned st)) = Ok docs /\
      ~ Sorted Z.lt (map Doc.timestamp docs)).
Proof.
  split.
  - intros ms st Hc.
    exists (synthesized ms (provisioned st)).
    rewrite mapM_make_doc, add_messages_run. cbn [fst snd].
    repeat split.
    + unfold synthesized. apply docs_from_length.
    + apply strongly_sorted_map_le. unfold synthesized.
      apply docs_from_nondecreasing.
      destruct (provisioned_clock st) as [-> _]. exact Hc.
  - exists [m_hello; m_hi], (state_of "s" frozen_clock []).
    eexists. split; [ exact frozen_clock_nondecreasing | ].
    split; [ reflexivity | ].
    cbn. intros Hs. inversion Hs as [ | ? ? _ Hhd ]; subst.
    inversion Hhd as [ | ? ? Hlt ]; subst. unfold frozen_clock in Hlt. lia.
Qed.

Lemma batch_timestamps_witness :
  nondecreasing (wall_clock (world (state_of "s" ticking_clock []))) /\
  exists docs,
    fst (mapM make_doc [m_hello; m_hi]
           (provisioned (state_of "s" ticking_clock []))) = Ok docs /\
    stored (snd (add_messages [m_hello; m_hi] (state_of "s" ticking_clock [])))
    = (stored (provisioned (state_of "s" ticking_clock [])) ++ docs)%list /\
    List.length docs = 2 /\
    Sorted Z.le (map Doc.timestamp docs).
Proof.
  split.
  - exact ticking_clock_nondecreasing.
  - apply (proj1 batch_timestamps_nondecreasing [m_hello; m_hi]
             (state_of "s" ticking_clock [])).
    exact ticking_clock_nondecreasing.
Defined.

(** ** Round trip *)

(** C3: decoding the encoding of a message gives the message back, both
    for one blob and in the two passes of a read
    ([json.loads] of [json.dumps(message_to_dict(m))], then
    [messages_from_dict]). *)
Theorem codec_round_trip (m : BaseMessage) :
  decode (encode m) = Ok m /\
  decode_blobs [Json.dumps (message_to_dict m)] = Ok [m].
Proof.
  split; [ apply decode_encode_ok | ].
  apply two_pass_decode. cbn [traverse].
  change (Json.dumps (message_to_dict m)) with (encode m).
  rewrite decode_encode_ok. reflexivity.
Qed.

Lemma traverse_decode_encode ms : traverse decode (map encode ms) = Ok ms.
Proof.
  induction ms as [ | m ms IH ]; cbn [map traverse]; [ reflexivity | ].
  rewrite decode_encode_ok, IH. reflexivity.
Qed.

(** ** Reads *)

Section Reads.

Context `{Backend}.

Lemma scan_order_nil : scan_order [] = [].
Proof. apply Permutation_nil. symmetry. apply scan_order_perm. Qed.

Lemma found_by_perm st :
  Permutation (found_by st)
    (map project (records_of (session_id (self st)) (provisioned st))).
Proof. unfold found_by, Collection.find_docs. apply scan_order_perm. Qed.

(** A read by the instance [r] only depends on the records of its
    session. *)
Lemma found_by_seen_from r st1 st2 :
  records_of (session_id r) st1 = records_of (session_id r) st2 ->
  found_by (seen_from r st1) = found_by (seen_from r st2).
Proof.
  unfold found_by, Collection.find_docs, records_of, stored, seen_from.
  destruct r as [[b p] sid cn]. destruct st1 as [s1 [c1 n1 d1]].
  destruct st2 as [s2 [c2 n2 d2]]. cbn.
  intros Hr.
  destruct b, p; cbn;
    unfold Collection.create_collection, Collection.delete_collection;
    rewrite ?Hr; reflexivity.
Qed.

Lemma messages_seen_from r st1 st2 :
  records_of (session_id r) st1 = records_of (session_id r) st2 ->
  fst (messages (seen_from r st1)) = fst (messages (seen_from r st2)).
Proof.
  intros Hr. rewrite !messages_run. cbn [fst].
  rewrite (found_by_seen_from r st1 st2 Hr). reflexivity.
Qed.

(** C2: [messages] and [aget_messages] return the decoded bodies of
    exactly the records the retrieval produced for the session, sorted
    ascending by timestamp, records of equal timestamp in the order the
    retrieval produced them. *)
Theorem read_sorted_by_timestamp (st : State) :
  let found := found_by st in
  let ds := sorted Projected.timestamp found in
  Permutation found
    (map project (records_of (session_id (self st)) (provisioned st))) /\
  Permutation ds found /\
  StronglySorted (key_le Projected.timestamp) ds /\
  stable_wrt Projected.timestamp found ds /\
  (forall ms,
      fst (messages st) = Ok ms
      <-> traverse decode (map Projected.body_blob ds) = Ok ms) /\
  (forall ms,
      fst (aget_messages st) = Ok ms
      <-> traverse decode (map Projected.body_blob ds) = Ok ms).
Proof.
  intros found ds.
  assert (Hm : forall ms,
             fst (messages st) = Ok ms
             <-> traverse decode (map Projected.body_blob ds) = Ok ms).
  { intros ms. rewrite messages_run. cbn [fst]. apply two_pass_decode. }
  repeat split; try apply Hm.
  - apply found_by_perm.
  - apply sorted_perm.
  - apply sorted_sorted.
  - apply sorted_stable.
  - rewrite aget_messages_messages. apply Hm.
  - rewrite aget_messages_messages. apply Hm.
Qed.

(** C8: when one retrieved blob cannot be decoded, [messages] and
    [aget_messages] raise a decode error; no message is returned. *)
Theorem read_fails_as_a_whole (st : State) (d : Projected.t) :
  In d (found_by st) ->
  is_ok (decode (Projected.body_blob d)) = false ->
  exists e,
    is_decode_error e = true /\
    fst (messages st) = Raise e /\
    fst (aget_messages st) = Raise e.
Proof.
  intros Hin Hd.
  rewrite aget_messages_messages, messages_run. cbn [fst].
  set (blobs := map Projected.body_blob
                  (sorted Projected.timestamp (found_by st))).
  assert (Hb : In (Projected.body_blob d) blobs).
  { apply in_map. eapply Permutation_in; [ | exact Hin ].
    symmetry. apply sorted_perm. }
  unfold decode_blobs.
  destruct (traverse Json.loads blobs) as [items | e] eqn:Hl.
  - unfold messages_from_dict.
    destruct (traverse _message_from_dict items) as [ms | e] eqn:Hf.
    + exfalso.
      assert (Hok : traverse decode blobs = Ok ms).
      { apply two_pass_decode. rewrite Hl. exact Hf. }
      pose proof (traverse_fails decode blobs _ Hb Hd) as Hno.
      rewrite Hok in Hno. discriminate.
    + exists e. split; [ | split; reflexivity ].
      destruct (traverse_raise _ _ _ Hf) as (item & _ & He).
      eapply message_from_dict_error. exact He.
  - exists e. split; [ | split; reflexivity ].
    destruct (traverse_raise _ _ _ Hl) as (b & _ & He).
    eapply loads_error. exact He.
Qed.

(** *** Filters on the session *)

Lemma filter_matches_all sid docs :
  Forall (fun d => Doc.session_id d = sid) docs ->
  filter (matches sid) docs = docs.
Proof.
  induction 1 as [ | d docs Hd Hdocs IH ]; cbn [filter]; [ reflexivity | ].
  cbn beta in Hd. unfold matches at 1. rewrite Hd, String.eqb_refl, IH.
  reflexivity.
Qed.

Lemma filter_matches_other sid sid' docs :
  sid <> sid' ->
  Forall (fun d => Doc.session_id d = sid) docs ->
  filter (matches sid') docs = [].
Proof.
  intros Hne. induction 1 as [ | d docs Hd Hdocs IH ]; cbn [filter];
    [ reflexivity | ].
  cbn beta in Hd. unfold matches at 1. rewrite Hd.
  destruct (String.eqb_spec sid sid'); [ contradiction | exact IH ].
Qed.

Lemma filter_matches_deleted sid docs :
  filter (matches sid) (filter (fun d => negb (matches sid d)) docs) = [].
Proof.
  induction docs as [ | d docs IH ]; cbn [filter]; [ reflexivity | ].
  destruct (matches sid d) eqn:Hd; cbn [negb filter]; [ exact IH | ].
  rewrite Hd. exact IH.
Qed.


Lemma records_of_provisioned_nil sid st :
  records_of sid st = [] -> records_of sid (provisioned st) = [].
Proof.
  unfold records_of.
  destruct (provisioned_stored_cases st) as [-> | ->]; [ tauto | reflexivity ].
Qed.

(** A session without records reads as the empty history. *)
Lemma messages_no_records st :
  records_of (session_id (self st)) st = [] -> fst (messages st) = Ok [].
Proof.
  intros Hr. rewrite messages_run. cbn [fst].
  unfold found_by, Collection.find_docs.
  apply records_of_provisioned_nil in Hr. unfold records_of in Hr.
  rewrite Hr. cbn [map]. rewrite scan_order_nil. reflexivity.
Qed.

Lemma strongly_sorted_project docs :
  StronglySorted (key_lt Doc.timestamp) docs ->
  StronglySorted (key_lt Projected.timestamp) (map project docs).
Proof.
  induction 1 as [ | d docs Hdocs IH Hd ]; cbn [map]; constructor;
    [ exact IH | ].
  apply Forall_map. exact Hd.
Qed.

(** ** Append, then read *)

(** C1, as amended: on a store that holds no record of the session,
    [add_messages] followed by [messages] returns the appended messages, in
    the order appended, when successive clock reads increase strictly. *)
Theorem append_then_read (st : State) (ms : list BaseMessage) :
  records_of (session_id (self st)) st = [] ->
  increasing (wall_clock (world st)) ->
  fst (add_messages ms st) = Ok tt /\
  fst (messages (snd (add_messages ms st))) = Ok ms.
Proof.
  intros Hnone Hclock. rewrite add_messages_run. cbn [fst snd].
  split; [ reflexivity | ].
  set (st1 := provisioned st).
  set (st2 := set_collection _ _).
  assert (Hself : self st2 = self st1) by apply advance_self.
  assert (Hdone : provisioned st2 = st2).
  { apply provisioned_when_done. rewrite Hself. apply provisioned_setup_done. }
  assert (Hsid : session_id (self st2) = session_id (self st)).
  { rewrite Hself. apply provisioned_session. }
  rewrite messages_run. cbn [fst].
  unfold found_by. rewrite Hdone, Hsid.
  change (stored st2) with (stored st1 ++ synthesized ms st1)%list.
  unfold Collection.find_docs. rewrite filter_app.
  apply records_of_provisioned_nil in Hnone. fold st1 in Hnone.
  unfold records_of in Hnone. rewrite Hnone. cbn [app].
  unfold synthesized. subst st1. rewrite provisioned_session.
  rewrite filter_matches_all by apply docs_from_session.
  destruct (provisioned_clock st) as [-> ->].
  rewrite (sorted_ascending Projected.timestamp
             (map project (docs_from (wall_clock (world st))
                             (clock_reads (world st))
                             (session_id (self st)) ms))).
  - rewrite map_map. cbn [project Projected.body_blob].
    rewrite docs_from_blobs. apply two_pass_decode.
    apply traverse_decode_encode.
  - apply strongly_sorted_project. apply docs_from_increasing. exact Hclock.
  - apply scan_order_perm.
Qed.


(** ** Session isolation *)

(** C6: for distinct sessions, every document [add_messages] writes carries
    the writer's session, a read retrieves records of the reader's session
    only, and so a read bound to another session retrieves, after the
    append, records that session already had: what it returns is what it
    returned on the collection the append started from. *)
Theorem session_isolation (a b : AstraDBChatMessageHistory) (w : World)
  (ms : list BaseMessage) :
  session_id a <> session_id b ->
  let st := {| self := a; world := w |} in
  let st' := snd (add_messages ms st) in
  (exists docs,
      stored st' = (stored (provisioned st) ++ docs)%list /\
      List.length docs = List.length ms /\
      Forall (fun d => Doc.session_id d = session_id a) docs) /\
  Permutation (found_by (seen_from b st'))
    (map project (records_of (session_id b) (provisioned (seen_from b st')))) /\
  records_of (session_id b) st' = records_of (session_id b) (provisioned st) /\
  incl (records_of (session_id b) st') (records_of (session_id b) st) /\
  found_by (seen_from b st') = found_by (seen_from b (provisioned st)) /\
  fst (messages (seen_from b st'))
  = fst (messages (seen_from b (provisioned st))).
Proof.
  intros Hne st st'. subst st'. rewrite add_messages_run. cbn [snd].
  set (st1 := provisioned st).
  set (st' := set_collection _ _).
  assert (Hsid : session_id (self st1) = session_id a)
    by (subst st1; apply provisioned_session).
  assert (Hdocs : Forall (fun d => Doc.session_id d = session_id a)
                    (synthesized ms st1)).
  { unfold synthesized. rewrite Hsid. apply docs_from_session. }
  assert (Hrec : records_of (session_id b) st'
                 = records_of (session_id b) st1).
  { unfold records_of.
    change (stored st') with (stored st1 ++ synthesized ms st1)%list.
    rewrite filter_app.
    rewrite (filter_matches_other (session_id a) (session_id b) _ Hne Hdocs).
    apply app_nil_r. }
  split.
  { exists (synthesized ms st1). split; [ reflexivity | ].
    split; [ apply docs_from_length | exact Hdocs ]. }
  split; [ apply (found_by_perm (seen_from b st')) | ].
  split; [ exact Hrec | ].
  split.
  { rewrite Hrec. subst st1. unfold records_of.
    destruct (provisioned_stored_cases st) as [-> | ->];
      [ apply incl_refl | apply incl_nil_l ]. }
  split; [ apply found_by_seen_from; exact Hrec | ].
  apply messages_seen_from. exact Hrec.
Qed.

End Reads.

(** ** Instances *)

Lemma append_then_read_witness :
  records_of "u" (state_of "u" ticking_clock sample_docs) = [] /\
  increasing (wall_clock (world (state_of "u" ticking_clock sample_docs))) /\
  fst (@messages reverse_order
         (snd (add_messages [m_hello; m_hi]
                 (state_of "u" ticking_clock sample_docs))))
  = Ok [m_hello; m_hi].
Proof.
  split; [ reflexivity | ].
  split; [ intros n; cbn; unfold ticking_clock; lia | ].
  apply (@append_then_read reverse_order
           (state_of "u" ticking_clock sample_docs) [m_hello; m_hi]).
  - reflexivity.
  - intros n. cbn. unfold ticking_clock. lia.
Defined.

(** With a clock that stands still between the two reads of the batch and
    a backend that returns the matching documents in reverse, the read
    returns the two messages swapped: a clock that merely never runs
    backwards is not enough. *)
Lemma append_then_read_tie :
  let st := state_of "s" frozen_clock [] in
  records_of (session_id (self st)) st = [] /\
  nondecreasing (wall_clock (world st)) /\
  fst (@messages reverse_order (snd (add_messages [m_hello; m_hi] st)))
  = Ok [m_hi; m_hello] /\
  fst (@messages reverse_order (snd (add_messages [m_hello; m_hi] st)))
  <> Ok [m_hello; m_hi].
Proof.
  cbv zeta. split; [ reflexivity | ].
  split; [ exact frozen_clock_nondecreasing | ].
  assert (Hr : fst (@messages reverse_order
                      (snd (add_messages [m_hello; m_hi]
                              (state_of "s" frozen_clock []))))
               = Ok [m_hi; m_hello]) by (vm_compute; reflexivity).
  split; [ exact Hr | ].
  rewrite Hr. discriminate.
Qed.

Lemma read_sorted_witness :
  fst (@messages reverse_order (state_of "s" ticking_clock sample_docs))
  = Ok [m_hello; m_hi].
Proof.
  destruct (@read_sorted_by_timestamp reverse_order
              (state_of "s" ticking_clock sample_docs))
    as (_ & _ & _ & _ & Hm & _).
  apply Hm. vm_compute. reflexivity.
Defined.

Lemma read_fails_witness :
  exists e,
    is_decode_error e = true /\
    fst (@messages insertion_order (state_of "s" ticking_clock broken_docs))
    = Raise e /\
    fst (@aget_messages insertion_order
           (state_of "s" ticking_clock broken_docs))
    = Raise e.
Proof.
  apply (@read_fails_as_a_whole insertion_order
           (state_of "s" ticking_clock broken_docs)
           {| Projected.timestamp := 20; Projected.body_blob := "oops" |}).
  - vm_compute. right. left. reflexivity.
  - vm_compute. reflexivity.
Defined.

Lemma session_isolation_witness :
  fst (@messages insertion_order
         (seen_from (store_of "t")
            (snd (add_messages [m_hello; m_hi]
                    {| self := store_of "s";
                       world := world_of ticking_clock sample_docs |}))))
  = fst (@messages insertion_order
           (seen_from (store_of "t")
              (provisioned
                 {| self := store_of "s";
                    world := world_of ticking_clock sample_docs |}))).
Proof.
  apply (@session_isolation insertion_order (store_of "s") (store_of "t")
           (world_of ticking_clock sample_docs) [m_hello; m_hi]).
  cbn. discriminate.
Defined.

(** * Further properties of the methods *)

(** ** Sorted lists *)

Section AscendingFacts.

Context {A : Type} (key : A -> Z).

Lemma strongly_sorted_app (R : A -> A -> Prop) l1 l2 :
  StronglySorted R l1 ->
  StronglySorted R l2 ->
  (forall x y, In x l1 -> In y l2 -> R x y) ->
  StronglySorted R (l1 ++ l2).
Proof.
  intros H1 H2 Hc. induction H1 as [ | x l1 Hl IH Hx ]; cbn [app];
    [ exact H2 | ].
  constructor.
  - apply IH. intros a b Ha Hb. apply Hc; [ right; exact Ha | exact Hb ].
  - apply Forall_app. split; [ exact Hx | ].
    apply Forall_forall. intros y Hy. apply Hc; [ left; reflexivity | exact Hy ].
Qed.

Lemma ascending_distinct l :
  StronglySorted (key_le key) l ->
  NoDup (map key l) ->
  StronglySorted (key_lt key) l.
Proof.
  induction 1 as [ | x l Hl IH Hx ]; intros Hnd; constructor.
  - apply IH. inversion Hnd; assumption.
  - inversion Hnd as [ | ? ? Hnotin Hnd' ]; subst.
    apply Forall_forall. intros y Hy.
    rewrite Forall_forall in Hx. specialize (Hx y Hy).
    assert (Hne : key x <> key y).
    { intros E. apply Hnotin. rewrite E. apply in_map. exact Hy. }
    unfold key_le, key_lt in *. lia.
Qed.

Lemma strictly_ascending_nodup l :
  StronglySorted (key_lt key) l -> NoDup (map key l).
Proof.
  induction 1 as [ | x l Hl IH Hx ]; cbn [map]; constructor; [ | exact IH ].
  intros Hin. apply in_map_iff in Hin. destruct Hin as (y & Hk & Hy).
  rewrite Forall_forall in Hx. specialize (Hx y Hy).
  unfold key_lt in Hx. lia.
Qed.

(** With pairwise distinct keys, the sorted list does not depend on the
    order of the input. *)
Lemma sorted_perm_distinct l1 l2 :
  Permutation l1 l2 ->
  NoDup (map key l1) ->
  sorted key l1 = sorted key l2.
Proof.
  intros Hp Hnd. symmetry. apply ascending_unique with (key := key).
  - apply sorted_sorted.
  - apply ascending_distinct; [ apply sorted_sorted | ].
    eapply Permutation_NoDup; [ | exact Hnd ].
    apply Permutation_map. symmetry. apply sorted_perm.
  - rewrite !sorted_perm. symmetry. exact Hp.
Qed.

End AscendingFacts.

(** ** What a call leaves behind *)

Section AfterCall.

Lemma advance_clock_reads n st :
  clock_reads (world (advance n st)) = n + clock_reads (world st).
Proof.
  revert st. induction n as [ | n IH ]; intros st; cbn [advance];
    [ reflexivity | ].
  rewrite IH. cbn. lia.
Qed.

Lemma increasing_nondecreasing clock : increasing clock -> nondecreasing clock.
Proof. intros Hc n. specialize (Hc n). lia. Qed.

Lemma docs_from_read_within clock sid ms :
  forall n d, In d (docs_from clock n sid ms) ->
              exists m, n <= m < n + List.length ms
                        /\ Doc.timestamp d = clock m.
Proof.
  induction ms as [ | msg ms IH ]; intros n d; cbn [docs_from In List.length];
    [ tauto | ].
  intros [<- | Hin].
  - exists n. split; [ lia | reflexivity ].
  - destruct (IH _ _ Hin) as (m & Hm & Ht). exists m. split; [ lia | exact Ht ].
Qed.

Lemma docs_from_timestamps clock sid ms :
  forall n,
    map Doc.timestamp (docs_from clock n sid ms)
    = map clock (seq n (List.length ms)).
Proof.
  induction ms as [ | msg ms IH ]; intros n; cbn [docs_from map List.length seq];
    [ reflexivity | ].
  rewrite IH. reflexivity.
Qed.

Lemma docs_from_decode clock sid ms :
  forall n,
    Forall2 (fun d m => Doc.session_id d = sid
                        /\ decode (Doc.body_blob d) = Ok m)
      (docs_from clock n sid ms) ms.
Proof.
  induction ms as [ | msg ms IH ]; intros n; cbn [docs_from]; constructor.
  - split; [ reflexivity | apply decode_encode_ok ].
  - apply IH.
Qed.

Lemma synthesized_provisioned ms st :
  synthesized ms (provisioned st) = synthesized ms st.
Proof.
  unfold synthesized. rewrite provisioned_session.
  destruct (provisioned_clock st) as [-> ->]. reflexivity.
Qed.

(** The state [add_messages] leaves. *)
Lemma add_messages_state ms st :
  self (snd (add_messages ms st)) = self (provisioned st) /\
  wall_clock (world (snd (add_messages ms st))) = wall_clock (world st) /\
  clock_reads (world (snd (add_messages ms st)))
  = List.length ms + clock_reads (world st) /\
  stored (snd (add_messages ms st))
  = (stored (provisioned st) ++ synthesized ms st)%list.
Proof.
  rewrite add_messages_run. cbn [snd].
  rewrite synthesized_provisioned.
  destruct (provisioned_clock st) as [Hw Hr].
  repeat split.
  - apply advance_self.
  - cbn. rewrite advance_wall_clock. exact Hw.
  - cbn. rewrite advance_clock_reads, Hr. reflexivity.
Qed.

Lemma add_messages_provisioned ms st :
  provisioned (snd (add_messages ms st)) = snd (add_messages ms st).
Proof.
  apply provisioned_when_done.
  destruct (add_messages_state ms st) as (-> & _).
  apply provisioned_setup_done.
Qed.

Lemma add_messages_session ms st :
  session_id (self (snd (add_messages ms st))) = session_id (self st).
Proof.
  destruct (add_messages_state ms st) as (-> & _). apply provisioned_session.
Qed.

Lemma clear_provisioned st : provisioned (snd (clear st)) = snd (clear st).
Proof.
  rewrite clear_run. cbn [snd]. apply provisioned_when_done.
  cbn. apply provisioned_setup_done.
Qed.

Lemma records_of_provisioned_cases sid st :
  records_of sid (provisioned st) = records_of sid st \/
  records_of sid (provisioned st) = [].
Proof.
  unfold records_of.
  destruct (provisioned_stored_cases st) as [-> | ->]; auto.
Qed.

Lemma records_of_after_add ms st :
  records_of (session_id (self st)) (snd (add_messages ms st))
  = (records_of (session_id (self st)) (provisioned st)
     ++ synthesized ms st)%list.
Proof.
  unfold records_of.
  destruct (add_messages_state ms st) as (_ & _ & _ & ->).
  rewrite filter_app. f_equal.
  apply filter_matches_all. unfold synthesized. apply docs_from_session.
Qed.

Lemma records_of_after_add_other ms st sid :
  sid <> session_id (self st) ->
  records_of sid (snd (add_messages ms st)) = records_of sid (provisioned st).
Proof.
  intros Hne. unfold records_of.
  destruct (add_messages_state ms st) as (_ & _ & _ & ->).
  rewrite filter_app.
  rewrite (filter_matches_other (session_id (self st)) sid
             (synthesized ms st));
    [ apply app_nil_r | congruence | ].
  unfold synthesized. apply docs_from_session.
Qed.

Lemma map_timestamp_project docs :
  map Projected.timestamp (map project docs) = map Doc.timestamp docs.
Proof. rewrite map_map. reflexivity. Qed.

Lemma map_body_blob_project docs :
  map Projected.body_blob (map project docs) = map Doc.body_blob docs.
Proof. rewrite map_map. reflexivity. Qed.

End AfterCall.

(** ** Histories that grow *)

Section Growth.

Context `{Backend}.

Lemma found_by_records st :
  found_by st
  = scan_order
      (map project (records_of (session_id (self st)) (provisioned st))).
Proof. reflexivity. Qed.

Lemma found_by_after_add ms st :
  found_by (snd (add_messages ms st))
  = scan_order
      (map project
         (records_of (session_id (self st)) (provisioned st)
          ++ synthesized ms st)).
Proof.
  rewrite found_by_records.
  rewrite add_messages_provisioned, add_messages_session.
  rewrite records_of_after_add. reflexivity.
Qed.

(** Appending to a history whose records are older than the clock and
    carry pairwise distinct timestamps puts the batch at its end. *)
Lemma read_after_add ms st hist :
  increasing (wall_clock (world st)) ->
  NoDup (map Doc.timestamp
           (records_of (session_id (self st)) (provisioned st))) ->
  Forall (fun d =>
            (Doc.timestamp d
             < wall_clock (world st) (clock_reads (world st)))%Z)
    (records_of (session_id (self st)) (provisioned st)) ->
  fst (messages st) = Ok hist ->
  fst (messages (snd (add_messages ms st))) = Ok (hist ++ ms)%list.
Proof.
  intros Hclock Hnd Hold Hread.
  rewrite messages_run in Hread. cbn [fst] in Hread.
  apply two_pass_decode in Hread.
  rewrite messages_run. cbn [fst]. rewrite found_by_after_add.
  rewrite found_by_records in Hread.
  set (old := records_of (session_id (self st)) (provisioned st)) in *.
  set (new := synthesized ms st).
  assert (Hnew : StronglySorted (key_lt Doc.timestamp) new)
    by (apply docs_from_increasing; exact Hclock).
  assert (Hs : sorted Projected.timestamp (scan_order (map project (old ++ new)))
               = (sorted Projected.timestamp (scan_order (map project old))
                  ++ map project new)%list).
  { apply sorted_ascending.
    - apply strongly_sorted_app.
      + apply ascending_distinct; [ apply sorted_sorted | ].
        eapply Permutation_NoDup; [ | exact Hnd ].
        rewrite <- map_timestamp_project. apply Permutation_map.
        rewrite sorted_perm. symmetry. apply scan_order_perm.
      + apply strongly_sorted_project. exact Hnew.
      + intros x y Hx Hy.
        assert (Hx' : In x (map project old)).
        { eapply Permutation_in; [ apply scan_order_perm | ].
          eapply Permutation_in; [ apply sorted_perm | exact Hx ]. }
        apply in_map_iff in Hx'. destruct Hx' as (dx & <- & Hdx).
        apply in_map_iff in Hy. destruct Hy as (dy & <- & Hdy).
        rewrite Forall_forall in Hold. specialize (Hold dx Hdx).
        destruct (docs_from_read _ _ _ _ _ Hdy) as (m & Hm & Ht).
        pose proof (nondecreasing_le _ (increasing_nondecreasing _ Hclock)
                      _ _ Hm) as Hle.
        unfold key_lt. cbn [project Projected.timestamp]. lia.
    - rewrite scan_order_perm, map_app.
      apply Permutation_app_tail.
      rewrite sorted_perm. symmetry. apply scan_order_perm. }
  rewrite Hs, map_app, map_body_blob_project.
  unfold new, synthesized. rewrite docs_from_blobs.
  apply two_pass_decode. rewrite traverse_app, Hread, traverse_decode_encode.
  reflexivity.
Qed.

(** On a session without records the batch is the whole history. *)
Lemma read_after_first_add ms st :
  records_of (session_id (self st)) st = [] ->
  increasing (wall_clock (world st)) ->
  fst (messages (snd (add_messages ms st))) = Ok ms.
Proof.
  intros Hnone Hclock.
  pose proof (records_of_provisioned_nil _ _ Hnone) as Hp.
  apply (read_after_add ms st []).
  - exact Hclock.
  - rewrite Hp. constructor.
  - rewrite Hp. constructor.
  - apply messages_no_records. exact Hnone.
Qed.

End Growth.

(** ** Reads *)

Section ReadProperties.

Context `{Backend}.

(** X1: a read of a session that has no record returns the empty
    sequence, on both surfaces; it does not raise. *)
Theorem empty_session_reads_empty (st : State) :
  records_of (session_id (self st)) st = [] ->
  fst (messages st) = Ok [] /\ fst (aget_messages st) = Ok [].
Proof.
  intros Hnone. rewrite aget_messages_messages.
  split; apply messages_no_records; exact Hnone.
Qed.


Lemma loads_raises s e :
  Json.loads s = Raise e -> exists msg, e = JSONDecodeError msg.
Proof.
  unfold Json.loads.
  destruct (Json.parse_value _ s) as [[j rest] | ];
    [ | intros [= <-]; eexists; reflexivity ].
  destruct (Json.skip_ws rest); intros [= <-]. eexists. reflexivity.
Qed.

Lemma message_from_dict_raises j e msg :
  _message_from_dict j = Raise e -> e <> JSONDecodeError msg.
Proof.
  unfold _message_from_dict.
  repeat match goal with
         | |- context [match ?x with _ => _ end] => destruct x
         end; intros [= <-]; discriminate.
Qed.

(** X3: [json.loads] runs over all retrieved blobs before any of them is
    turned into a message, so a read raises a [JSONDecodeError] exactly
    when one of the retrieved blobs is no JSON text, wherever that blob
    stands and whatever is wrong with the others. *)
Theorem malformed_json_raises_first (st : State) :
  (exists d, In d (found_by st)
             /\ is_ok (Json.loads (Projected.body_blob d)) = false)
  <-> (exists msg,
          fst (messages st) = Raise (JSONDecodeError msg) /\
          fst (aget_messages st) = Raise (JSONDecodeError msg)).
Proof.
  rewrite aget_messages_messages, messages_run. cbn [fst].
  set (blobs := map Projected.body_blob
                  (sorted Projected.timestamp (found_by st))).
  unfold decode_blobs. split.
  - intros (d & Hin & Hd).
    assert (Hb : In (Projected.body_blob d) blobs).
    { apply in_map. eapply Permutation_in; [ | exact Hin ].
      symmetry. apply sorted_perm. }
    pose proof (traverse_fails Json.loads blobs _ Hb Hd) as Hno.
    destruct (traverse Json.loads blobs) as [items | e] eqn:Hl;
      [ discriminate | ].
    destruct (traverse_raise _ _ _ Hl) as (b & _ & He).
    destruct (loads_raises _ _ He) as (msg & ->).
    exists msg. split; reflexivity.
  - intros (msg & Hr & _).
    destruct (traverse Json.loads blobs) as [items | e] eqn:Hl.
    + unfold messages_from_dict in Hr.
      destruct (traverse_raise _ _ _ Hr) as (item & _ & He).
      exfalso. exact (message_from_dict_raises _ _ msg He eq_refl).
    + destruct (traverse_raise _ _ _ Hl) as (b & Hb & He).
      apply in_map_iff in Hb. destruct Hb as (d & <- & Hd).
      exists d. split.
      * eapply Permutation_in; [ apply sorted_perm | exact Hd ].
      * rewrite He. reflexivity.
Qed.

(** X5: appending to a session whose records carry pairwise distinct
    timestamps, all older than the clock, extends what a read returned:
    the batch comes after the previous history, in the order given. *)
Theorem append_extends_history (st : State) (ms hist : list BaseMessage) :
  increasing (wall_clock (world st)) ->
  NoDup (map Doc.timestamp (records_of (session_id (self st)) st)) ->
  Forall (fun d =>
            (Doc.timestamp d
             < wall_clock (world st) (clock_reads (world st)))%Z)
    (records_of (session_id (self st)) st) ->
  fst (messages st) = Ok hist ->
  fst (messages (snd (add_messages ms st))) = Ok (hist ++ ms)%list.
Proof.
  intros Hclock Hnd Hold Hread.
  apply read_after_add; try assumption.
  - destruct (records_of_provisioned_cases (session_id (self st)) st)
      as [-> | ->]; [ exact Hnd | constructor ].
  - destruct (records_of_provisioned_cases (session_id (self st)) st)
      as [-> | ->]; [ exact Hold | constructor ].
Qed.

Lemma read_after_two_adds ms1 ms2 st :
  records_of (session_id (self st)) st = [] ->
  increasing (wall_clock (world st)) ->
  fst (messages (snd (add_messages ms2 (snd (add_messages ms1 st)))))
  = Ok (ms1 ++ ms2)%list.
Proof.
  intros Hnone Hclock.
  set (st1 := snd (add_messages ms1 st)).
  destruct (add_messages_state ms1 st) as (_ & Hw & Hr & _).
  fold st1 in Hw, Hr.
  assert (Hrec : records_of (session_id (self st1)) (provisioned st1)
                 = synthesized ms1 st).
  { subst st1. rewrite add_messages_provisioned, add_messages_session.
    rewrite records_of_after_add.
    rewrite (records_of_provisioned_nil _ _ Hnone). reflexivity. }
  apply read_after_add.
  - rewrite Hw. exact Hclock.
  - rewrite Hrec. apply strictly_ascending_nodup.
    apply docs_from_increasing. exact Hclock.
  - rewrite Hrec, Hw, Hr. apply Forall_forall. intros d Hd.
    destruct (docs_from_read_within _ _ _ _ _ Hd) as (m & Hm & ->).
    apply increasing_lt; [ exact Hclock | lia ].
  - apply read_after_first_add; assumption.
Qed.

(** X6: two batches appended one after the other to a session without
    records are read back as one history, the first batch before the
    second, when clock reads increase strictly. *)
Theorem two_batches_in_order (st : State) (ms1 ms2 : list BaseMessage) :
  records_of (session_id (self st)) st = [] ->
  increasing (wall_clock (world st)) ->
  fst (messages (snd (add_messages ms2 (snd (add_messages ms1 st)))))
  = Ok (ms1 ++ ms2)%list /\
  fst (aget_messages (snd (aadd_messages ms2 (snd (aadd_messages ms1 st)))))
  = Ok (ms1 ++ ms2)%list.
Proof.
  intros Hnone Hclock.
  split; [ apply read_after_two_adds; assumption | ].
  rewrite aget_messages_messages.
  rewrite (aadd_messages_add ms1 st).
  rewrite (aadd_messages_add ms2 (snd (add_messages ms1 st))).
  apply read_after_two_adds; assumption.
Qed.

End ReadProperties.

(** X4: when the records of the session carry pairwise distinct
    timestamps, a read does not depend on the order in which the backend
    returns them. *)
Theorem read_independent_of_backend (B1 B2 : Backend) (st : State) :
  NoDup (map Doc.timestamp (records_of (session_id (self st)) st)) ->
  @messages B1 st = @messages B2 st /\
  @aget_messages B1 st = @aget_messages B2 st.
Proof.
  intros Hnd.
  assert (Hm : @messages B1 st = @messages B2 st).
  { rewrite !messages_run. do 3 f_equal.
    apply sorted_perm_distinct.
    - rewrite (@found_by_perm B1), (@found_by_perm B2). reflexivity.
    - eapply Permutation_NoDup.
      + apply Permutation_map. symmetry. apply (@found_by_perm B1).
      + rewrite map_timestamp_project.
        destruct (records_of_provisioned_cases (session_id (self st)) st)
          as [-> | ->]; [ exact Hnd | constructor ]. }
  split; [ exact Hm | ].
  rewrite !aget_messages_messages. exact Hm.
Qed.

(** ** Clear *)



Section Clear.

Context `{Backend}.


End Clear.



(** ** Empty batch *)




(** ** Repeated reads *)



(** ** Writes and deletions *)

Lemma filter_negb_partition {A} (f : A -> bool) l :
  Permutation l (filter f l ++ filter (fun x => negb (f x)) l).
Proof.
  induction l as [ | x l IH ]; cbn [filter]; [ reflexivity | ].
  destruct (f x); cbn [negb app].
  - constructor. exact IH.
  - apply Permutation_cons_app. exact IH.
Qed.

Lemma filter_twice {A} (f : A -> bool) l :
  filter f (filter f l) = filter f l.
Proof.
  induction l as [ | x l IH ]; cbn [filter]; [ reflexivity | ].
  destruct (f x) eqn:Hx; cbn [filter]; [ rewrite Hx, IH | rewrite IH ];
    reflexivity.
Qed.

Lemma clear_session st :
  session_id (self (snd (clear st))) = session_id (self st).
Proof. rewrite clear_run. cbn. apply provisioned_session. Qed.

Lemma clear_wall_clock st :
  wall_clock (world (snd (clear st))) = wall_clock (world st).
Proof. rewrite clear_run. cbn. apply provisioned_clock. Qed.

Lemma records_of_after_clear st :
  records_of (session_id (self st)) (snd (clear st)) = [].
Proof.
  rewrite clear_run. unfold records_of. cbn. apply filter_matches_deleted.
Qed.

(** X7: what [add_messages] writes: it returns normally, keeps every
    document the provisioned collection held and adds, after them, one
    document per message, in batch order, each carrying the session of the
    instance, the value of its own clock read, and a body that decodes to
    its message; the call makes one clock read per message. *)
Theorem add_messages_writes (st : State) (ms : list BaseMessage) :
  fst (add_messages ms st) = Ok tt /\
  clock_reads (world (snd (add_messages ms st)))
  = List.length ms + clock_reads (world st) /\
  exists docs,
    stored (snd (add_messages ms st)) = (stored (provisioned st) ++ docs)%list /\
    Forall2 (fun d m => Doc.session_id d = session_id (self st)
                        /\ decode (Doc.body_blob d) = Ok m) docs ms /\
    map Doc.timestamp docs
    = map (wall_clock (world st))
        (seq (clock_reads (world st)) (List.length ms)).
Proof.
  destruct (add_messages_state ms st) as (_ & _ & Hr & Hs).
  split; [ rewrite add_messages_run; reflexivity | ].
  split; [ exact Hr | ].
  exists (synthesized ms st). split; [ exact Hs | ].
  unfold synthesized. split; [ apply docs_from_decode | ].
  apply docs_from_timestamps.
Qed.

(** X8: [clear] removes the records of the session and nothing else: the
    documents left, together with the records of the session, are the
    documents of the provisioned collection; it does not read the clock;
    clearing again changes nothing. *)
Theorem clear_removes_the_session_only (st : State) :
  Permutation (stored (provisioned st))
    (records_of (session_id (self st)) (provisioned st)
     ++ stored (snd (clear st))) /\
  clock_reads (world (snd (clear st))) = clock_reads (world st) /\
  clear (snd (clear st)) = (Ok tt, snd (clear st)) /\
  aclear (snd (aclear st)) = (Ok tt, snd (aclear st)).
Proof.
  assert (Hagain : clear (snd (clear st)) = (Ok tt, snd (clear st))).
  { rewrite (clear_run (snd (clear st))).
    rewrite clear_provisioned, clear_session.
    replace (filter (fun d => negb (matches (session_id (self st)) d))
               (stored (snd (clear st))))
      with (stored (snd (clear st))).
    - rewrite set_collection_same. reflexivity.
    - rewrite clear_run. cbn [snd]. unfold stored at 1 3. cbn.
      rewrite filter_twice. reflexivity. }
  split.
  { rewrite clear_run. cbn [snd]. unfold records_of.
    apply filter_negb_partition. }
  split.
  { rewrite clear_run. cbn. apply provisioned_clock. }
  split; [ exact Hagain | ].
  rewrite (aclear_clear st), aclear_clear. exact Hagain.
Qed.

Section Compositions.

Context `{Backend}.

(** X9: after [clear], a batch appended to the session is the whole
    history, whatever the session held before, when clock reads increase
    strictly. *)
Theorem clear_then_append (st : State) (ms : list BaseMessage) :
  increasing (wall_clock (world st)) ->
  fst (messages (snd (add_messages ms (snd (clear st))))) = Ok ms /\
  fst (aget_messages (snd (aadd_messages ms (snd (aclear st))))) = Ok ms.
Proof.
  intros Hclock.
  assert (Hm : fst (messages (snd (add_messages ms (snd (clear st)))))
               = Ok ms).
  { apply read_after_first_add.
    - rewrite clear_session. apply records_of_after_clear.
    - rewrite clear_wall_clock. exact Hclock. }
  split; [ exact Hm | ].
  rewrite aget_messages_messages, (aclear_clear st).
  rewrite (aadd_messages_add ms (snd (clear st))). exact Hm.
Qed.

(** X10: two stores bound to different sessions that append one after the
    other on the same collection each read back their own batch, when
    neither session had records, clock reads increase strictly and the
    second store has no collection reset pending. *)
Theorem interleaved_sessions (a b : AstraDBChatMessageHistory) (w : World)
  (ms1 ms2 : list BaseMessage) :
  session_id a <> session_id b ->
  setup_done (astra_env b) = true \/
  pre_delete_collection (astra_env b) = false ->
  records_of (session_id a) {| self := a; world := w |} = [] ->
  records_of (session_id b) {| self := a; world := w |} = [] ->
  increasing (wall_clock w) ->
  let st1 := snd (add_messages ms1 {| self := a; world := w |}) in
  let st2 := snd (add_messages ms2 (seen_from b st1)) in
  fst (messages (seen_from (self st1) st2)) = Ok ms1 /\
  fst (messages st2) = Ok ms2.
Proof.
  intros Hne Hb Hnone_a Hnone_b Hclock st1 st2.
  set (st := {| self := a; world := w |}) in *.
  assert (Hw1 : wall_clock (world st1) = wall_clock w).
  { subst st1. destruct (add_messages_state ms1 st) as (_ & -> & _).
    reflexivity. }
  assert (Hread1 : fst (messages st1) = Ok ms1).
  { subst st1. apply read_after_first_add; assumption. }
  assert (Hsid1 : session_id (self st1) = session_id a).
  { subst st1. apply (add_messages_session ms1 st). }
  split.
  - replace st1 with (seen_from (self st1) st1) in Hread1
      by (destruct st1; reflexivity).
    rewrite <- Hread1. apply messages_seen_from. rewrite Hsid1.
    subst st2.
    rewrite (records_of_after_add_other ms2 (seen_from b st1) (session_id a))
      by exact Hne.
    unfold records_of. rewrite provisioned_stored by exact Hb. reflexivity.
  - subst st2. apply read_after_first_add.
    + cbn [seen_from self]. unfold records_of, stored. cbn [seen_from world].
      fold (stored st1). fold (records_of (session_id b) st1). subst st1.
      rewrite (records_of_after_add_other ms1 st (session_id b))
        by (cbn; congruence).
      apply records_of_provisioned_nil. exact Hnone_b.
    + cbn [seen_from world]. rewrite Hw1. exact Hclock.
Qed.

End Compositions.

(** ** Ties *)

Lemma sorted_of_ascending {A} (key : A -> Z) l :
  StronglySorted (key_le key) l -> sorted key l = l.
Proof.
  intros Hs. symmetry. apply stable_sort_unique; [ exact Hs | ].
  intros k. reflexivity.
Qed.

Lemma strongly_sorted_project_le docs :
  StronglySorted (key_le Doc.timestamp) docs ->
  StronglySorted (key_le Projected.timestamp) (map project docs).
Proof.
  induction 1 as [ | d docs Hdocs IH Hd ]; cbn [map]; constructor;
    [ exact IH | ].
  apply Forall_map. exact Hd.
Qed.

(** X12: with a backend that returns documents in insertion order, a
    batch appended to a session without records is read back in the order
    appended as soon as the clock never runs backwards: records stamped
    with the same value keep the order of the retrieval. *)
Theorem append_then_read_in_insertion_order (st : State)
  (ms : list BaseMessage) :
  records_of (session_id (self st)) st = [] ->
  nondecreasing (wall_clock (world st)) ->
  fst (@messages insertion_order (snd (add_messages ms st))) = Ok ms /\
  fst (@aget_messages insertion_order (snd (aadd_messages ms st))) = Ok ms.
Proof.
  intros Hnone Hclock.
  assert (Hm : fst (@messages insertion_order (snd (add_messages ms st)))
               = Ok ms).
  { rewrite messages_run. cbn [fst]. rewrite found_by_after_add.
    rewrite (records_of_provisioned_nil _ _ Hnone). cbn [app].
    change (@scan_order insertion_order (map project (synthesized ms st)))
      with (map project (synthesized ms st)).
    rewrite sorted_of_ascending.
    - rewrite map_body_blob_project. unfold synthesized.
      rewrite docs_from_blobs. apply two_pass_decode.
      apply traverse_decode_encode.
    - apply strongly_sorted_project_le. unfold synthesized.
      apply docs_from_nondecreasing. exact Hclock. }
  split; [ exact Hm | ].
  rewrite aget_messages_messages, (aadd_messages_add ms st). exact Hm.
Qed.

(** ** Instances of the further properties *)

Lemma late_clock_increasing : increasing late_clock.
Proof. intros n. unfold late_clock. lia. Qed.

Lemma empty_session_witness :
  fst (@messages reverse_order (state_of "nobody" ticking_clock sample_docs))
  = Ok [] /\
  fst (@aget_messages reverse_order
         (state_of "nobody" ticking_clock sample_docs))
  = Ok [].
Proof.
  apply (@empty_session_reads_empty reverse_order
           (state_of "nobody" ticking_clock sample_docs)).
  reflexivity.
Defined.

Lemma malformed_json_witness :
  exists msg,
    fst (@messages insertion_order
           (state_of "s" ticking_clock unreadable_docs))
    = Raise (JSONDecodeError msg) /\
    fst (@aget_messages insertion_order
           (state_of "s" ticking_clock unreadable_docs))
    = Raise (JSONDecodeError msg).
Proof.
  apply (proj1 (@malformed_json_raises_first insertion_order
                  (state_of "s" ticking_clock unreadable_docs))).
  exists {| Projected.timestamp := 20; Projected.body_blob := "oops" |}.
  split.
  - vm_compute. right. left. reflexivity.
  - vm_compute. reflexivity.
Defined.

Lemma read_independent_witness :
  @messages insertion_order (state_of "s" ticking_clock sample_docs)
  = @messages reverse_order (state_of "s" ticking_clock sample_docs) /\
  @aget_messages insertion_order (state_of "s" ticking_clock sample_docs)
  = @aget_messages reverse_order (state_of "s" ticking_clock sample_docs).
Proof.
  apply (read_independent_of_backend insertion_order reverse_order
           (state_of "s" ticking_clock sample_docs)).
  vm_compute. constructor.
  - intros [E | []]. discriminate E.
  - constructor; [ intros [] | constructor ].
Defined.

Lemma append_extends_witness :
  fst (@messages reverse_order
         (snd (add_messages [m_hi] (state_of "s" late_clock sample_docs))))
  = Ok [m_hello; m_hi; m_hi].
Proof.
  apply (@append_extends_history reverse_order
           (state_of "s" late_clock sample_docs) [m_hi] [m_hello; m_hi]).
  - exact late_clock_increasing.
  - vm_compute. constructor.
    + intros [E | []]. discriminate E.
    + constructor; [ intros [] | constructor ].
  - vm_compute. repeat constructor.
  - vm_compute. reflexivity.
Defined.

Lemma two_batches_witness :
  fst (@messages reverse_order
         (snd (add_messages [m_hi; m_hello]
                 (snd (add_messages [m_hello]
                         (state_of "u" ticking_clock sample_docs))))))
  = Ok [m_hello; m_hi; m_hello].
Proof.
  apply (@two_batches_in_order reverse_order
           (state_of "u" ticking_clock sample_docs) [m_hello] [m_hi; m_hello]).
  - reflexivity.
  - intros n. cbn. unfold ticking_clock. lia.
Defined.

Lemma clear_then_append_witness :
  fst (@messages reverse_order
         (snd (add_messages [m_hi; m_hello]
                 (snd (clear (state_of "s" ticking_clock sample_docs))))))
  = Ok [m_hi; m_hello].
Proof.
  apply (@clear_then_append reverse_order
           (state_of "s" ticking_clock sample_docs) [m_hi; m_hello]).
  intros n. cbn. unfold ticking_clock. lia.
Defined.

Lemma interleaved_sessions_witness :
  fst (@messages reverse_order
         (seen_from
            (self (snd (add_messages [m_hello]
                          {| self := store_of "a";
                             world := world_of ticking_clock sample_docs |})))
            (snd (add_messages [m_hi]
                    (seen_from (store_of "b")
                       (snd (add_messages [m_hello]
                               {| self := store_of "a";
                                  world := world_of ticking_clock
                                             sample_docs |})))))))
  = Ok [m_hello].
Proof.
  apply (@interleaved_sessions reverse_order (store_of "a") (store_of "b")
           (world_of ticking_clock sample_docs) [m_hello] [m_hi]).
  - cbn. discriminate.
  - right. reflexivity.
  - reflexivity.
  - reflexivity.
  - intros n. cbn. unfold ticking_clock. lia.
Defined.

Lemma insertion_order_tie_witness :
  fst (@messages insertion_order
         (snd (add_messages [m_hello; m_hi] (state_of "s" frozen_clock []))))
  = Ok [m_hello; m_hi].
Proof.
  apply (append_then_read_in_insertion_order
           (state_of "s" frozen_clock []) [m_hello; m_hi]).
  - reflexivity.
  - intros n. cbn. unfold frozen_clock. lia.
Defined.

(** ** Examples *)

Example dumps_ex :
  Json.dumps
    (Json.Obj [("type", Json.Str "human");
               ("data", Json.Obj [("content", Json.Str (text "a'b"))])])
  = text "{'type': 'human', 'data': {'content': 'a\'b'}}".
Proof. reflexivity. Qed.

Example loads_ex :
  Json.loads
    (text " {'type' :'human', 'data': {'content': 'aA\n\u00e9', 'x': null}} ")
  = Ok (Json.Obj
          [("type", Json.Str "human");
           ("data", Json.Obj
              [("content",
                Json.Str (String "a" (String "A" (String (ascii_of_N 10)
                            (String (ascii_of_N 233) EmptyString)))));
               ("x", Json.Null)])]).
Proof. vm_compute. reflexivity. Qed.

Example sorted_ex :
  sorted (fun p : Z * string => fst p)
    [(3%Z, "c"); (1%Z, "a"); (3%Z, "d"); (2%Z, "b"); (1%Z, "e")]
  = [(1%Z, "a"); (1%Z, "e"); (2%Z, "b"); (3%Z, "c"); (3%Z, "d")].
Proof. reflexivity. Qed.

(** With the clock standing still, the order of a batch is the order the
    backend returns it in. *)
Example tie_insertion_order_ex :
  fst (@messages insertion_order
         (snd (add_messages [m_hello; m_hi] (state_of "s" frozen_clock []))))
  = Ok [m_hello; m_hi].
Proof. vm_compute. reflexivity. Qed.

Example messages_ex :
  fst (@messages insertion_order (state_of "s" ticking_clock sample_docs))
  = Ok [m_hello; m_hi].
Proof. vm_compute. reflexivity. Qed.

Example messages_empty_session_ex :
  fst (@messages insertion_order (state_of "nobody" ticking_clock sample_docs))
  = Ok [].
Proof. vm_compute. reflexivity. Qed.

Example messages_broken_ex :
  fst (@messages insertion_order (state_of "s" ticking_clock broken_docs))
  = Raise (JSONDecodeError "Expecting value").
Proof. vm_compute. reflexivity. Qed.

Example unknown_type_ex :
  decode (text "{'type': 'robot', 'data': {'content': 'x'}}")
  = Raise (ValueError "Got unexpected message type").
Proof. vm_compute. reflexivity. Qed.

Example clear_ex :
  stored (snd (clear (state_of "s" ticking_clock sample_docs)))
  = [ {| Doc.timestamp := 10; Doc.session_id := "t";
         Doc.body_blob := encode m_hello |} ].
Proof. vm_compute. reflexivity. Qed.

Example pre_delete_ex :
  stored
    (provisioned
       {| self := __init__ "s" DEFAULT_COLLECTION_NAME true;
          world := world_of ticking_clock sample_docs |})
  = [].
Proof. reflexivity. Qed.
